(** * RateLimiter (utils/rate_limiter.py): a shallow embedding in Rocq

    The retry executor of [utils/rate_limiter.py]: the rate-limit
    classification of error text, the extraction of the
    [X-RateLimit-Reset] hint by regular expression, the backoff computation
    [_calculate_delay] and the attempt loop [call_with_retry].

    Modelling choices.
    - Python [str] values are strings of 8-bit characters, read as the
      code points U+0000 to U+00FF (Latin-1).
    - Python [int] values are [Z].  A Python [float] is a [pyfloat]: a
      finite value, an infinity or NaN.  A finite float is an exact
      rational; rounding to 53 bits is not modelled, but the range is: an
      exact result of magnitude at least [2^1024 - 2^970] (the least value
      that round-to-nearest sends to infinity) becomes an infinity, and the
      conversion of such an [int] to [float] raises [OverflowError].  The
      constructor's parameters [base_delay] and [max_delay] are finite
      floats.
    - Seconds and milliseconds are rationals; [time.time()] reads the field
      [clock] of the world state and a successful [time.sleep d] advances
      it by [d]; the wrapped operation takes [dur i] seconds on attempt [i].
      The pacing sleep lasts at most 0.2 s plus the time the clock has been
      set back since the last request, and is modelled as always
      succeeding.
    - [time.sleep] on a float: CPython raises [ValueError] on NaN or a
      negative value and [OverflowError] on an infinity or a duration of
      [2^63] nanoseconds or more; the operating system may refuse long
      durations ([OSError]), which is the environment's [os_accepts].
    - [random.random()] on attempt [i] is [rnd i].
    - The wrapped operation is opaque: its outcome on attempt [i] of a call
      is [op i].  The ghost fields [calls] (invocations of the operation)
      and [starts] (the values stored in [last_request_time], latest first)
      record the history; the program never reads them. *)

From Stdlib Require Import String Ascii List Bool ZArith QArith Qminmax Qround Qabs Lia Lqa.
Import ListNotations.
Open Scope string_scope.

(** ** Strings *)

Module Str.

(** [c.lower()] for a Latin-1 character: A-Z and U+00C0 to U+00DE
    except U+00D7 move up by 32. *)
Definition lower_char (c : ascii) : ascii :=
  let n := nat_of_ascii c in
  if ((65 <=? n)%nat && (n <=? 90)%nat) ||
     ((192 <=? n)%nat && (n <=? 222)%nat && negb (n =? 215)%nat)
  then ascii_of_nat (n + 32) else c.

(** [s.lower()]. *)
Fixpoint lower (s : string) : string :=
  match s with
  | EmptyString => EmptyString
  | String c s' => String (lower_char c) (lower s')
  end.

(** [prefix p s]: [s.startswith(p)]. *)
Fixpoint starts_with (p s : string) : bool :=
  match p, s with
  | EmptyString, _ => true
  | String c p', String d s' => Ascii.eqb c d && starts_with p' s'
  | String _ _, EmptyString => false
  end.

(** [needle in hay] for Python strings. *)
Fixpoint contains (needle hay : string) : bool :=
  starts_with needle hay ||
  match hay with
  | EmptyString => false
  | String _ hay' => contains needle hay'
  end.

(** [\s] of a [str] pattern on one character: \t \n \v \f \r, the
    separators \x1c-\x1f, the space, U+0085 and U+00A0. *)
Definition is_space (c : ascii) : bool :=
  let n := nat_of_ascii c in
  ((9 <=? n)%nat && (n <=? 13)%nat) || ((28 <=? n)%nat && (n <=? 32)%nat) ||
  (n =? 133)%nat || (n =? 160)%nat.

Definition is_digit (c : ascii) : bool :=
  let n := nat_of_ascii c in (48 <=? n)%nat && (n <=? 57)%nat.

Definition digit_val (c : ascii) : Z := Z.of_nat (nat_of_ascii c - 48).

End Str.

(** ** Rate-limit classification: [RateLimiter._is_rate_limit_error] *)

(** A Python exception: an identity and its rendering [str(e)]. *)
Record Exc := mkExc { exc_id : nat; exc_msg : string }.

Definition rate_limit_keywords : list string :=
  [ "rate limit"; "429"; "too many requests"; "quota exceeded" ].

(** [error_str = str(error).lower();
     return any(keyword in error_str for keyword in [...])] *)
Definition is_rate_limit_error (error : Exc) : bool :=
  let error_str := Str.lower (exc_msg error) in
  existsb (fun keyword => Str.contains keyword error_str) rate_limit_keywords.

(** ** Python exceptions and floats *)

(** The exceptions the arithmetic and [time.sleep] can raise. *)
Inductive PyError := OverflowError | ValueError | OSError.

(** A computation that returns a value or raises. *)
Inductive Py (A : Type) := PyOk (a : A) | PyRaise (x : PyError).
Arguments PyOk {A} a.
Arguments PyRaise {A} x.

Definition py_bind {A B : Type} (m : Py A) (f : A -> Py B) : Py B :=
  match m with
  | PyOk a => f a
  | PyRaise x => PyRaise x
  end.

Notation "'let*' x ':=' m 'in' f" := (py_bind m (fun x => f))
  (at level 200, x name, m at level 100, f at level 200).

Inductive pyfloat := Fin (q : Q) | PInf | NInf | NaN.

(** The least magnitude round-to-nearest sends to infinity:
    [2^1024 - 2^970], halfway between the largest finite double and
    [2^1024]. *)
Definition flt_ovf_int : Z := (2 ^ 1024 - 2 ^ 970)%Z.
Definition flt_ovf : Q := inject_Z flt_ovf_int.

(** The float result of an exact finite result. *)
Definition round (q : Q) : pyfloat :=
  if Qle_bool flt_ovf q then PInf
  else if Qle_bool q (- flt_ovf) then NInf
  else Fin q.

(** [float(n)] for an [int], implicit in [int * float] and
    [int / float]. *)
Definition int_to_float (z : Z) : Py pyfloat :=
  if (flt_ovf_int <=? Z.abs z)%Z then PyRaise OverflowError else PyOk (Fin (inject_Z z)).

(** [inf] times a finite [a] of the given sign. *)
Definition inf_times (pos : bool) (a : Q) : pyfloat :=
  if Qeq_bool a 0 then NaN
  else if Bool.eqb pos (negb (Qle_bool a 0)) then PInf else NInf.

(** [x * y]. *)
Definition fmul (x y : pyfloat) : pyfloat :=
  match x, y with
  | NaN, _ | _, NaN => NaN
  | Fin a, Fin b => round (a * b)
  | Fin a, PInf | PInf, Fin a => inf_times true a
  | Fin a, NInf | NInf, Fin a => inf_times false a
  | PInf, PInf | NInf, NInf => PInf
  | PInf, NInf | NInf, PInf => NInf
  end.

(** [x + y]. *)
Definition fadd (x y : pyfloat) : pyfloat :=
  match x, y with
  | NaN, _ | _, NaN => NaN
  | Fin a, Fin b => round (a + b)
  | PInf, NInf | NInf, PInf => NaN
  | PInf, _ | _, PInf => PInf
  | NInf, _ | _, NInf => NInf
  end.

(** [x - y]. *)
Definition fsub (x y : pyfloat) : pyfloat :=
  match x, y with
  | NaN, _ | _, NaN => NaN
  | Fin a, Fin b => round (a - b)
  | PInf, PInf | NInf, NInf => NaN
  | PInf, _ | _, NInf => PInf
  | NInf, _ | _, PInf => NInf
  end.

(** [x / b] for a positive finite divisor [b]. *)
Definition fdiv_pos (x : pyfloat) (b : Q) : pyfloat :=
  match x with
  | Fin a => round (a / b)
  | _ => x
  end.

(** [x < y]; every comparison with NaN is false. *)
Definition flt_lt (x y : pyfloat) : bool :=
  match x, y with
  | Fin a, Fin b => negb (Qle_bool b a)
  | NInf, Fin _ | NInf, PInf | Fin _, PInf => true
  | _, _ => false
  end.

(** [min(x, y)]: [y] replaces [x] when [y < x]. *)
Definition py_min (x y : pyfloat) : pyfloat := if flt_lt y x then y else x.

(** [max(x, y)]: [y] replaces [x] when [y > x]. *)
Definition py_max (x y : pyfloat) : pyfloat := if flt_lt x y then y else x.

(** [bool(x)] for a float: false only for zero. *)
Definition flt_truthy (x : pyfloat) : bool :=
  match x with
  | Fin a => negb (Qeq_bool a 0)
  | _ => true
  end.

(** [int(x)] for a finite float: truncation toward zero. *)
Definition float_to_int (q : Q) : Z :=
  if Qle_bool 0 q then Qfloor q else (- Qfloor (- q))%Z.

(** ** The reset hint: [RateLimiter._extract_retry_after] *)

Module Hint.

Definition dquote : ascii := "034"%char.
Definition squote : ascii := "039"%char.

(** The quote class of the pattern: a double or a single quote. *)
Definition is_quote (c : ascii) : bool :=
  Ascii.eqb c dquote || Ascii.eqb c squote.

Definition header : string := "X-RateLimit-Reset".

Fixpoint drop_prefix (p s : string) : option string :=
  match p, s with
  | EmptyString, _ => Some s
  | String c p', String d s' => if Ascii.eqb c d then drop_prefix p' s' else None
  | String _ _, EmptyString => None
  end.

(** Greedy [\s*]. *)
Fixpoint skip_space (s : string) : string :=
  match s with
  | String c s' => if Str.is_space c then skip_space s' else s
  | EmptyString => EmptyString
  end.

(** Greedy run of non-quote characters (the class of group 1): the run of non-quote characters and what follows it. *)
Fixpoint span_nonquote (s : string) : string * string :=
  match s with
  | String c s' =>
      if is_quote c then (EmptyString, s)
      else let (g, r) := span_nonquote s' in (String c g, r)
  | EmptyString => (EmptyString, EmptyString)
  end.

(** Anchored match of
    [X-RateLimit-Reset], a quote, [:], whitespace [\s*], a quote,
    group 1 (one or more non-quote characters), a quote
    (quote = double or single quote), returning group 1.  The match is
    unique: [\s*] is followed by a quote,
    which is no whitespace, and group 1 is followed by a quote, which it
    cannot contain, so the greedy runs are the only ones that can succeed
    and no backtracking is needed. *)
Definition match_at (s : string) : option string :=
  match drop_prefix header s with
  | Some (String q1 (String colon s2)) =>
      if is_quote q1 && Ascii.eqb colon ":"%char then
        match skip_space s2 with
        | String q2 s3 =>
            if is_quote q2 then
              match span_nonquote s3 with
              | (String g0 g, String q3 _) =>
                  if is_quote q3 then Some (String g0 g) else None
              | _ => None
              end
            else None
        | EmptyString => None
        end
      else None
  | _ => None
  end.

(** [re.search(pattern, s).group(1)]: the leftmost match. *)
Fixpoint re_search (s : string) : option string :=
  match match_at s with
  | Some g => Some g
  | None =>
      match s with
      | EmptyString => None
      | String _ s' => re_search s'
      end
  end.

(** The whitespace [int()] skips around its argument: \t \n \v \f \r
    and the space ([Py_ISSPACE]), and U+0085 and U+00A0, which CPython
    first maps to a space; not the separators \x1c-\x1f. *)
Definition is_int_space (c : ascii) : bool :=
  let n := nat_of_ascii c in
  ((9 <=? n)%nat && (n <=? 13)%nat) || (n =? 32)%nat || (n =? 133)%nat || (n =? 160)%nat.

Fixpoint lstrip (s : string) : string :=
  match s with
  | String c s' => if is_int_space c then lstrip s' else s
  | EmptyString => EmptyString
  end.

Fixpoint rev_str (s acc : string) : string :=
  match s with
  | EmptyString => acc
  | String c s' => rev_str s' (String c acc)
  end.

(** The whitespace [int()] skips, removed at both ends. *)
Definition strip (s : string) : string :=
  rev_str (lstrip (rev_str (lstrip s) EmptyString)) EmptyString.

(** Digits of a base-10 literal, one ['_'] allowed between two digits. *)
Fixpoint digits_from (s : string) (acc : Z) (after_us : bool) : option Z :=
  match s with
  | EmptyString => if after_us then None else Some acc
  | String c s' =>
      if Str.is_digit c then digits_from s' (acc * 10 + Str.digit_val c)%Z false
      else if Ascii.eqb c "_"%char then
        if after_us then None else digits_from s' acc true
      else None
  end.

Definition unsigned_int (s : string) : option Z :=
  match s with
  | String c s' => if Str.is_digit c then digits_from s' (Str.digit_val c) false else None
  | EmptyString => None
  end.

Fixpoint digit_count (s : string) : nat :=
  match s with
  | EmptyString => O
  | String c s' => if Str.is_digit c then S (digit_count s') else digit_count s'
  end.

(** [sys.get_int_max_str_digits()] by default (Python 3.11 and later). *)
Definition max_str_digits : nat := 4300.

(** [int(s)]: [None] where Python raises [ValueError], also for a
    literal of more than [max_str_digits] digits. *)
Definition py_int (s : string) : option Z :=
  let t := strip s in
  if (max_str_digits <? digit_count t)%nat then None else
  match t with
  | String c s' =>
      if Ascii.eqb c "-"%char then option_map Z.opp (unsigned_int s')
      else if Ascii.eqb c "+"%char then unsigned_int s'
      else unsigned_int (String c s')
  | EmptyString => None
  end.

End Hint.

(** [_extract_retry_after(error_message)]; [current_time] is
    [int(time.time() * 1000)], passed in as [now_ms].  The [except]
    clause catches the [ValueError] of [int()]; the [OverflowError] of
    [(reset_timestamp - current_time) / 1000.0] escapes. *)
Definition extract_retry_after (error_message : string) (now_ms : Z) : Py (option pyfloat) :=
  match Hint.re_search error_message with
  | Some group1 =>
      match Hint.py_int group1 with
      | Some reset_timestamp =>
          if (now_ms <? reset_timestamp)%Z
          then let* diff := int_to_float (reset_timestamp - now_ms) in
               PyOk (Some (fdiv_pos diff 1000))
          else PyOk None
      | None => PyOk None
      end
  | None => PyOk None
  end.

(** ** The backoff: [RateLimiter._calculate_delay] *)

(** The constructor's parameters.  [last_request_time] and
    [request_count] live in [World] below. *)
Record RateLimiter := mkRateLimiter {
  max_retries : Z;
  base_delay : Q;
  max_delay : Q
}.

(** Python truthiness of [retry_after] ([None] or a float):
    [if retry_after:]. *)
Definition truthy (x : option pyfloat) : bool :=
  match x with
  | Some v => flt_truthy v
  | None => false
  end.

(** [_calculate_delay(attempt, error_message)]; [r] is the draw of
    [random.random()] and [now_ms] the [current_time] read by
    [_extract_retry_after]. *)
Definition calculate_delay (self : RateLimiter) (attempt : nat)
    (error_message : string) (now_ms : Z) (r : Q) : Py pyfloat :=
  let* retry_after := extract_retry_after error_message now_ms in
  let backoff :=
    let* p := int_to_float (2 ^ Z.of_nat attempt) in
    PyOk (fmul (Fin (base_delay self)) p) in
  let* delay :=
    match retry_after with
    | Some ra => if truthy retry_after then PyOk ra else backoff
    | None => backoff
    end in
  let jitter := fmul (fmul delay (Fin (1 # 4))) (fsub (fmul (Fin r) (Fin 2)) (Fin 1)) in
  let delay := fadd delay jitter in
  let delay := py_min delay (Fin (max_delay self)) in
  PyOk (py_max delay (Fin (1 # 10))).

(** ** The attempt loop: [RateLimiter.call_with_retry] *)

(** The executor's mutable fields, the clock, and the ghost history. *)
Record World := mkWorld {
  clock : Q;
  last_request_time : Q;
  request_count : Z;
  calls : nat;
  starts : list Q
}.

(** What the environment supplies on attempt [i] of one call. *)
Inductive Outcome (V : Type) := Ok (v : V) | Err (e : Exc).
Arguments Ok {V} v.
Arguments Err {V} e.

Record Env (V : Type) := mkEnv {
  op : nat -> Outcome V;
  dur : nat -> Q;
  rnd : nat -> Q;
  os_accepts : Q -> bool
}.
Arguments mkEnv {V} op dur rnd os_accepts.
Arguments op {V} e i.
Arguments dur {V} e i.
Arguments rnd {V} e i.
Arguments os_accepts {V} e d.

(** How [call_with_retry] ends: [return result], [raise e] inside the
    loop, the statement [raise last_exception] after the loop (which
    raises the stored exception, or a [TypeError] when it is [None]), or
    an exception of [_calculate_delay] or [time.sleep(delay)] escaping
    from the [except] clause. *)
Inductive CallResult (V : Type) :=
  | Returned (v : V)
  | Raised (e : Exc)
  | RaisedLast (last_exception : option Exc)
  | Escaped (x : PyError).
Arguments Returned {V} v.
Arguments Raised {V} e.
Arguments RaisedLast {V} last_exception.
Arguments Escaped {V} x.

Definition min_interval : Q := 1 # 5.

(** [time.time()] after [if time_since_last < min_interval:
    time.sleep(min_interval - time_since_last)], from
    [current_time = time.time()]; it is then stored in
    [last_request_time]. *)
Definition paced (current_time last : Q) : Q :=
  let time_since_last := current_time - last in
  if negb (Qle_bool min_interval time_since_last)
  then current_time + (min_interval - time_since_last)
  else current_time.

Definition sleep (w : World) (d : Q) : World :=
  mkWorld (clock w + d) (last_request_time w) (request_count w) (calls w) (starts w).

(** [time.sleep(secs)]. *)
Definition time_sleep (os_ok : Q -> bool) (w : World) (secs : pyfloat) : Py World :=
  match secs with
  | NaN => PyRaise ValueError
  | PInf | NInf => PyRaise OverflowError
  | Fin d =>
      if Qle_bool (inject_Z (2 ^ 63)) (Qabs d * inject_Z (10 ^ 9)) then PyRaise OverflowError
      else if negb (Qle_bool 0 d) then PyRaise ValueError
      else if os_ok d then PyOk (sleep w d)
      else PyRaise OSError
  end.

Section Loop.
Context {V : Type} (self : RateLimiter) (env : Env V).

(** [delay = self._calculate_delay(attempt, str(e)); ...;
    time.sleep(delay)], at the time [time.time()] of [w]. *)
Definition backoff (attempt : nat) (e : Exc) (w : World) : Py World :=
  let* delay := calculate_delay self attempt (exc_msg e)
                  (float_to_int (clock w * 1000)) (rnd env attempt) in
  time_sleep (os_accepts env) w delay.

(** The body of [for attempt in range(...)], [n] iterations left;
    [last_exception] is threaded through. *)
Fixpoint retry_loop (n attempt : nat) (last_exception : option Exc) (w : World)
    : CallResult V * World :=
  match n with
  | O => (RaisedLast last_exception, w)
  | S n' =>
      let t := paced (clock w) (last_request_time w) in
      (* [self.last_request_time = time.time(); self.request_count += 1;
         result = func(...)] *)
      let w2 := mkWorld (t + dur env attempt) t (request_count w + 1)
                        (S (calls w)) (t :: starts w) in
      match op env attempt with
      | Ok result => (Returned result, w2)
      | Err e =>
          if negb (is_rate_limit_error e) then (Raised e, w2)
          else if (Z.of_nat attempt =? max_retries self)%Z then (Raised e, w2)
          else
            match backoff attempt e w2 with
            | PyRaise x => (Escaped x, w2)
            | PyOk w3 => retry_loop n' (S attempt) (Some e) w3
            end
      end
  end.

(** [call_with_retry(func)]: [range(self.max_retries + 1)]. *)
Definition call_with_retry (w : World) : CallResult V * World :=
  retry_loop (Z.to_nat (max_retries self + 1)) 0 None w.

End Loop.

(** ** Definitions used in the statements *)

(** Every character of [s] satisfies [p]. *)
Fixpoint all_chars (p : ascii -> bool) (s : string) : bool :=
  match s with
  | EmptyString => true
  | String c s' => p c && all_chars p s'
  end.

(** The integer written by a string of decimal digits. *)
Fixpoint decimal_value_from (s : string) (acc : Z) : Z :=
  match s with
  | EmptyString => acc
  | String c s' => decimal_value_from s' (acc * 10 + Str.digit_val c)%Z
  end.

Definition decimal_value (s : string) : Z := decimal_value_from s 0.

(** The reset hint [X-RateLimit-Reset<q1>:<ws><q2><ds><q3>], as the
    pattern of [_extract_retry_after] reads it, followed by [post]. *)
Definition reset_hint (q1 : ascii) (ws : string) (q2 : ascii) (ds : string)
    (q3 : ascii) (post : string) : string :=
  Hint.header ++ String q1 (String ":"%char (ws ++ String q2 (ds ++ String q3 post))).

(** Spacing of attempt starts, latest first: each start is at least
    [min_interval] after the one before it. *)
Fixpoint spaced (l : list Q) : Prop :=
  match l with
  | t1 :: ((t0 :: _) as l') => t0 + min_interval <= t1 /\ spaced l'
  | _ => True
  end.

(** The pacing invariant of an executor: [last_request_time] is the
    latest attempt start, no later than the clock, and the starts are
    spaced. *)
Definition pacing_inv (w : World) : Prop :=
  last_request_time w <= clock w /\
  spaced (starts w) /\
  match starts w with
  | t :: _ => t == last_request_time w
  | [] => True
  end.

(** No match of the hint pattern starts inside [pre] (checked by
    evaluation). *)
Fixpoint no_earlier_match (pre rest : string) : bool :=
  match pre with
  | EmptyString => true
  | String c pre' =>
      match Hint.match_at (String c (pre' ++ rest)) with
      | Some _ => false
      | None => no_earlier_match pre' rest
      end
  end.

(** The leftmost hint value of [msg], when [int()] accepts it, is below
    [2^1024 - 2^970]. *)
Definition hint_below_overflow (msg : string) : bool :=
  match Hint.re_search msg with
  | Some g =>
      match Hint.py_int g with
      | Some t => (t <? flt_ovf_int)%Z
      | None => true
      end
  | None => true
  end.

(** Conditions under which the backoff after each of the attempts
    [0 .. i-1] of a call from [w] stays in range and its sleep succeeds:
    [2 ** j] converts to a float and [base_delay * 2 ** j] stays finite,
    the draws lie in [[0, 1]], the hints of the errors are below the
    overflow bound, the clock starts at a non-negative time and the
    operation takes non-negative time, [max(max_delay, 0.1)] seconds fit
    the nanosecond count of [time.sleep] and the operating system accepts
    sleeps up to that length. *)
Definition backoff_safe {V : Type} (self : RateLimiter) (env : Env V) (w : World) (i : nat)
    : Prop :=
  (i <= 1024)%nat /\
  (forall j, (j < i)%nat -> Qabs (base_delay self) * inject_Z (2 ^ Z.of_nat j) < flt_ovf) /\
  (forall j, (j < i)%nat -> 0 <= rnd env j <= 1) /\
  (forall j e, (j < i)%nat -> op env j = Err e -> hint_below_overflow (exc_msg e) = true) /\
  0 <= clock w /\
  (forall j, 0 <= dur env j) /\
  Qmax (max_delay self) (1 # 10) * inject_Z (10 ^ 9) < inject_Z (2 ^ 63) /\
  (forall d, 1 # 10 <= d <= Qmax (max_delay self) (1 # 10) -> os_accepts env d = true).

(** A string of [n] zeros. *)
Fixpoint zeros (n : nat) : string :=
  match n with
  | O => EmptyString
  | S n' => String "0"%char (zeros n')
  end.

(** ** Concrete inputs *)

(** The hint as the spec writes it: [X-RateLimit-Reset: ] and a
    double-quoted 5000. *)
Definition spec_form_message : string :=
  "X-RateLimit-Reset: " ++ String Hint.dquote ("5000" ++ String Hint.dquote EmptyString).

(** A 429 whose reset hint is [10^400], far beyond the float range. *)
Definition huge_hint_message : string :=
  "429 Too Many Requests {" ++
  reset_hint Hint.squote " " Hint.squote ("1" ++ zeros 400) Hint.squote "}".

Definition limiter3 : RateLimiter := mkRateLimiter 3 1 60.

Definition fresh_world : World := mkWorld 100 0 0 0 [].

(** An operating system that accepts sleeps of up to [9 * 10^9] s. *)
Definition os_9e9 (d : Q) : bool := Qle_bool d (inject_Z 9000000000).

(** Fails with a 429 on attempts 0, 1, 2 and returns 42 on attempt 3. *)
Definition env_recovers : Env nat :=
  mkEnv (fun i => if (i <? 3)%nat then Err (mkExc i "429 Too Many Requests") else Ok 42%nat)
        (fun _ => 1 # 2) (fun _ => 1 # 2) os_9e9.

Definition env_rate_limited : Env nat :=
  mkEnv (fun i => Err (mkExc i "rate limit exceeded")) (fun _ => 1 # 4) (fun _ => 0) os_9e9.

Definition env_bad_key : Env nat :=
  mkEnv (fun i => Err (mkExc i "Invalid API key")) (fun _ => 0) (fun _ => 0) os_9e9.

(** Two 429 responses, then a non-rate-limit failure on attempt 2. *)
Definition env_fatal_at_2 : Env nat :=
  mkEnv (fun i => if (i <? 2)%nat then Err (mkExc i "429 Too Many Requests")
                  else Err (mkExc i "Invalid API key"))
        (fun _ => 1 # 10) (fun _ => 1) os_9e9.

(** Every attempt fails with a 429 carrying the huge hint. *)
Definition env_huge_hint : Env nat :=
  mkEnv (fun i => Err (mkExc i huge_hint_message)) (fun _ => 1 # 10) (fun _ => 1 # 2) os_9e9.

(** Attempt 0 fails with a 429 carrying the huge hint; attempt 1 returns 7. *)
Definition env_huge_then_ok : Env nat :=
  mkEnv (fun i => if (i <? 1)%nat then Err (mkExc i huge_hint_message) else Ok 7%nat)
        (fun _ => 1 # 10) (fun _ => 1 # 2) os_9e9.

(** [RateLimiter(3, 1e308, 1e308)]: [base_delay * 2] leaves the float
    range. *)
Definition limiter_huge : RateLimiter :=
  mkRateLimiter 3 (inject_Z (10 ^ 308)) (inject_Z (10 ^ 308)).

(** ** Module state: [RateLimiter.__init__], [_default_rate_limiter],
    [get_rate_limiter], [set_global_rate_limits] *)

(** [RateLimiter(max_retries, base_delay, max_delay)]: the parameters and
    the fresh fields [last_request_time = 0], [request_count = 0]; the
    clock and the ghost invocation count are global, the ghost history of
    starts belongs to the new instance. *)
Definition rate_limiter_init (max_retries : Z) (base_delay max_delay : Q) (w : World)
    : RateLimiter * World :=
  (mkRateLimiter max_retries base_delay max_delay, mkWorld (clock w) 0 0 (calls w) []).

(** The module global [_default_rate_limiter]: its parameters and its
    fields (with the clock). *)
Record Globals := mkGlobals {
  default_rate_limiter : RateLimiter;
  default_state : World
}.

(** [_default_rate_limiter = RateLimiter()] at import, at time [now]. *)
Definition import_globals (now : Q) : Globals :=
  let (rl, w) := rate_limiter_init 3 1 60 (mkWorld now 0 0 0 []) in mkGlobals rl w.

(** [get_rate_limiter()]. *)
Definition get_rate_limiter (g : Globals) : RateLimiter := default_rate_limiter g.

(** [set_global_rate_limits(max_retries, base_delay, max_delay)]: a new
    instance replaces the global one. *)
Definition set_global_rate_limits (g : Globals) (max_retries : Z) (base_delay max_delay : Q)
    : Globals :=
  let (rl, w) := rate_limiter_init max_retries base_delay max_delay (default_state g) in
  mkGlobals rl w.

(** ** String lemmas *)

Lemma starts_with_spec (p s : string) :
  Str.starts_with p s = true <-> exists q, s = p ++ q.
Proof.
  revert s; induction p as [|c p IH]; intros s; simpl.
  - split; [intros _; exists s; reflexivity | reflexivity].
  - destruct s as [|d s].
    + split; [discriminate | intros [q Hq]; discriminate].
    + rewrite andb_true_iff, IH. split.
      * intros [Hcd [q ->]]. apply Ascii.eqb_eq in Hcd. subst. exists q. reflexivity.
      * intros [q Hq]. injection Hq as -> ->. split; [apply Ascii.eqb_refl | exists q; reflexivity].
Qed.

Lemma contains_spec (needle hay : string) :
  Str.contains needle hay = true <-> exists pre post, hay = pre ++ needle ++ post.
Proof.
  induction hay as [|c hay IH]; simpl; rewrite orb_true_iff, starts_with_spec.
  - split.
    + intros [[q Hq] | H]; [exists EmptyString, q; exact Hq | discriminate].
    + intros [pre [post H]]. left. exists post. destruct pre; [exact H | discriminate].
  - rewrite IH. split.
    + intros [[q Hq] | [pre [post H]]].
      * exists EmptyString, q. exact Hq.
      * exists (String c pre), post. rewrite H. reflexivity.
    + intros [pre [post H]]. destruct pre as [|c' pre].
      * left. exists post. exact H.
      * right. injection H as _ H. exists pre, post. exact H.
Qed.

Lemma is_quote_cases (q : ascii) :
  Hint.is_quote q = true -> q = Hint.dquote \/ q = Hint.squote.
Proof.
  unfold Hint.is_quote. rewrite orb_true_iff, !Ascii.eqb_eq. tauto.
Qed.

Lemma quote_not_space (q : ascii) : Hint.is_quote q = true -> Str.is_space q = false.
Proof. intros H. destruct (is_quote_cases q H) as [-> | ->]; reflexivity. Qed.

Lemma digit_not_quote (c : ascii) : Str.is_digit c = true -> Hint.is_quote c = false.
Proof.
  intros H. destruct (Hint.is_quote c) eqn:Hq; [|reflexivity].
  destruct (is_quote_cases c Hq) as [-> | ->]; discriminate.
Qed.

Lemma digit_not_space (c : ascii) : Str.is_digit c = true -> Str.is_space c = false.
Proof.
  unfold Str.is_digit, Str.is_space. cbv zeta. intros H.
  apply andb_true_iff in H as [H1 H2]. apply Nat.leb_le in H1, H2.
  assert (E1 : (nat_of_ascii c <=? 13)%nat = false) by (apply Nat.leb_gt; lia).
  assert (E2 : (nat_of_ascii c <=? 32)%nat = false) by (apply Nat.leb_gt; lia).
  assert (E3 : (nat_of_ascii c =? 133)%nat = false) by (apply Nat.eqb_neq; lia).
  assert (E4 : (nat_of_ascii c =? 160)%nat = false) by (apply Nat.eqb_neq; lia).
  rewrite E1, E2, E3, E4, !andb_false_r. reflexivity.
Qed.

Lemma digit_not_int_space (c : ascii) : Str.is_digit c = true -> Hint.is_int_space c = false.
Proof.
  unfold Str.is_digit, Hint.is_int_space. cbv zeta. intros H.
  apply andb_true_iff in H as [H1 H2]. apply Nat.leb_le in H1, H2.
  assert (E1 : (nat_of_ascii c <=? 13)%nat = false) by (apply Nat.leb_gt; lia).
  assert (E2 : (nat_of_ascii c =? 32)%nat = false) by (apply Nat.eqb_neq; lia).
  assert (E3 : (nat_of_ascii c =? 133)%nat = false) by (apply Nat.eqb_neq; lia).
  assert (E4 : (nat_of_ascii c =? 160)%nat = false) by (apply Nat.eqb_neq; lia).
  rewrite E1, E2, E3, E4, !andb_false_r. reflexivity.
Qed.

Lemma drop_prefix_app (p s : string) : Hint.drop_prefix p (p ++ s) = Some s.
Proof. induction p as [|c p IH]; simpl; [reflexivity | rewrite Ascii.eqb_refl; exact IH]. Qed.

Lemma skip_space_app (ws : string) (c : ascii) (s : string) :
  all_chars Str.is_space ws = true -> Str.is_space c = false ->
  Hint.skip_space (ws ++ String c s) = String c s.
Proof.
  intros Hws Hc. induction ws as [|d ws IH]; simpl in *.
  - rewrite Hc. reflexivity.
  - apply andb_true_iff in Hws as [-> Hws]. exact (IH Hws).
Qed.

Lemma span_digits (ds : string) (q : ascii) (s : string) :
  all_chars Str.is_digit ds = true -> Hint.is_quote q = true ->
  Hint.span_nonquote (ds ++ String q s) = (ds, String q s).
Proof.
  intros Hds Hq. induction ds as [|d ds IH]; simpl in *.
  - rewrite Hq. reflexivity.
  - apply andb_true_iff in Hds as [Hd Hds].
    rewrite (digit_not_quote d Hd), (IH Hds). reflexivity.
Qed.

Lemma match_at_reset_hint q1 ws q2 ds q3 post :
  Hint.is_quote q1 = true -> Hint.is_quote q2 = true -> Hint.is_quote q3 = true ->
  all_chars Str.is_space ws = true ->
  ds <> EmptyString -> all_chars Str.is_digit ds = true ->
  Hint.match_at (reset_hint q1 ws q2 ds q3 post) = Some ds.
Proof.
  intros H1 H2 H3 Hws Hne Hds. unfold Hint.match_at, reset_hint.
  rewrite drop_prefix_app, H1. simpl.
  rewrite (skip_space_app ws q2 _ Hws (quote_not_space q2 H2)), H2.
  rewrite (span_digits ds q3 post Hds H3).
  destruct ds as [|d ds]; [congruence | rewrite H3; reflexivity].
Qed.

Lemma re_search_skip (pre s : string) :
  (forall p1 p2, pre = p1 ++ p2 -> p2 <> EmptyString -> Hint.match_at (p2 ++ s) = None) ->
  Hint.re_search (pre ++ s) = Hint.re_search s.
Proof.
  induction pre as [|c pre IH]; intros H; [reflexivity|].
  assert (Hm := H EmptyString (String c pre) eq_refl ltac:(discriminate)).
  change (String c pre ++ s) with (String c (pre ++ s)) in Hm |- *.
  unfold Hint.re_search at 1; fold Hint.re_search. rewrite Hm.
  apply IH. intros p1 p2 Hp Hne. apply (H (String c p1) p2); [rewrite Hp; reflexivity | exact Hne].
Qed.

Lemma re_search_first (s g : string) :
  Hint.match_at s = Some g -> Hint.re_search s = Some g.
Proof. intros H. destruct s; cbn [Hint.re_search]; rewrite H; reflexivity. Qed.

Lemma re_search_hint q1 ws q2 ds q3 post :
  Hint.is_quote q1 = true -> Hint.is_quote q2 = true -> Hint.is_quote q3 = true ->
  all_chars Str.is_space ws = true ->
  ds <> EmptyString -> all_chars Str.is_digit ds = true ->
  Hint.re_search (reset_hint q1 ws q2 ds q3 post) = Some ds.
Proof.
  intros. apply re_search_first, match_at_reset_hint; auto.
Qed.

Lemma rev_str_involutive (s acc : string) :
  Hint.rev_str (Hint.rev_str s acc) EmptyString = Hint.rev_str acc s.
Proof.
  revert acc; induction s as [|c s IH]; intros acc; simpl; [reflexivity | apply IH].
Qed.

Lemma all_chars_rev_str (p : ascii -> bool) (s acc : string) :
  all_chars p (Hint.rev_str s acc) = all_chars p s && all_chars p acc.
Proof.
  revert acc; induction s as [|c s IH]; intros acc; simpl; [reflexivity|].
  rewrite IH. simpl. destruct (p c), (all_chars p s), (all_chars p acc); reflexivity.
Qed.

Lemma lstrip_digits (s : string) :
  all_chars Str.is_digit s = true -> Hint.lstrip s = s.
Proof.
  destruct s as [|c s]; simpl; [reflexivity|].
  intros H. apply andb_true_iff in H as [Hc _]. rewrite (digit_not_int_space c Hc). reflexivity.
Qed.

Lemma strip_digits (s : string) :
  all_chars Str.is_digit s = true -> Hint.strip s = s.
Proof.
  intros H. unfold Hint.strip. rewrite (lstrip_digits s H).
  rewrite lstrip_digits.
  - rewrite rev_str_involutive. reflexivity.
  - rewrite all_chars_rev_str, H. reflexivity.
Qed.

Lemma digits_from_digits (s : string) (acc : Z) :
  all_chars Str.is_digit s = true ->
  Hint.digits_from s acc false = Some (decimal_value_from s acc).
Proof.
  revert acc; induction s as [|c s IH]; intros acc H; simpl in *; [reflexivity|].
  apply andb_true_iff in H as [Hc Hs]. rewrite Hc. apply IH, Hs.
Qed.

Lemma py_int_digits (ds : string) :
  ds <> EmptyString -> all_chars Str.is_digit ds = true ->
  (Hint.digit_count ds <= Hint.max_str_digits)%nat ->
  Hint.py_int ds = Some (decimal_value ds).
Proof.
  intros Hne Hds Hlen. unfold Hint.py_int. cbv zeta. rewrite (strip_digits ds Hds).
  destruct (Hint.max_str_digits <? Hint.digit_count ds)%nat eqn:El;
    [apply Nat.ltb_lt in El; lia|].
  destruct ds as [|c s]; [congruence|].
  simpl in Hds. apply andb_true_iff in Hds as [Hc Hs].
  destruct (Ascii.eqb c "-"%char) eqn:Em.
  { apply Ascii.eqb_eq in Em. subst. discriminate. }
  destruct (Ascii.eqb c "+"%char) eqn:Ep.
  { apply Ascii.eqb_eq in Ep. subst. discriminate. }
  unfold Hint.unsigned_int. rewrite Hc, (digits_from_digits s _ Hs). reflexivity.
Qed.

Lemma py_int_too_long (ds : string) :
  all_chars Str.is_digit ds = true ->
  (Hint.max_str_digits < Hint.digit_count ds)%nat ->
  Hint.py_int ds = None.
Proof.
  intros Hds Hlen. unfold Hint.py_int. cbv zeta. rewrite (strip_digits ds Hds).
  apply Nat.ltb_lt in Hlen. rewrite Hlen. reflexivity.
Qed.

(** ** Float lemmas *)

Lemma flt_ovf_gt_1000 : 1000 < flt_ovf.
Proof. vm_compute. reflexivity. Qed.

Lemma round_fin (q : Q) : - flt_ovf < q < flt_ovf -> round q = Fin q.
Proof.
  intros [H1 H2]. unfold round.
  destruct (Qle_bool flt_ovf q) eqn:E1; [apply Qle_bool_iff in E1; lra|].
  destruct (Qle_bool q (- flt_ovf)) eqn:E2; [apply Qle_bool_iff in E2; lra|].
  reflexivity.
Qed.

Lemma Qle_bool_false (x y : Q) : Qle_bool x y = false -> y < x.
Proof.
  intros E. apply Qnot_le_lt. intros H. apply Qle_bool_iff in H. congruence.
Qed.

Lemma round_cases (q : Q) :
  (round q = PInf /\ flt_ovf <= q) \/ (round q = NInf /\ q <= - flt_ovf) \/
  (round q = Fin q /\ - flt_ovf < q < flt_ovf).
Proof.
  unfold round.
  destruct (Qle_bool flt_ovf q) eqn:E1; [left; split; [reflexivity | apply Qle_bool_iff, E1]|].
  apply Qle_bool_false in E1.
  destruct (Qle_bool q (- flt_ovf)) eqn:E2;
    [right; left; split; [reflexivity | apply Qle_bool_iff, E2]|].
  apply Qle_bool_false in E2. right; right. split; [reflexivity | lra].
Qed.

Lemma round_not_nan (q : Q) : round q <> NaN.
Proof. unfold round. destruct (Qle_bool flt_ovf q), (Qle_bool q (- flt_ovf)); discriminate. Qed.

Lemma py_min_fin (x y : Q) : py_min (Fin x) (Fin y) = Fin (Qmin x y).
Proof.
  unfold py_min, flt_lt, Qmin, GenericMinMax.gmin.
  destruct (Qle_bool x y) eqn:E; cbn [negb].
  - apply Qle_bool_iff in E. pose proof (proj1 (Qle_alt x y) E) as E'.
    destruct (Qcompare x y) eqn:C; [reflexivity | reflexivity | congruence].
  - apply Qle_bool_false in E. rewrite (proj1 (Qgt_alt x y) E). reflexivity.
Qed.

Lemma py_max_fin (x y : Q) : py_max (Fin x) (Fin y) = Fin (Qmax x y).
Proof.
  unfold py_max, flt_lt, Qmax, GenericMinMax.gmax.
  destruct (Qle_bool y x) eqn:E; cbn [negb].
  - apply Qle_bool_iff in E. destruct (Qcompare x y) eqn:C; try reflexivity.
    apply Qlt_alt in C. lra.
  - apply Qle_bool_false in E. rewrite (proj1 (Qlt_alt x y) E). reflexivity.
Qed.

(** The clamp [max(min(x, max_delay), 0.1)] of a float. *)
Lemma clamp_cases (x : pyfloat) (md : Q) :
  (x = NaN /\ py_max (py_min x (Fin md)) (Fin (1 # 10)) = NaN) \/
  exists d, py_max (py_min x (Fin md)) (Fin (1 # 10)) = Fin d /\
            1 # 10 <= d <= Qmax md (1 # 10).
Proof.
  destruct x as [q| | |].
  - right. rewrite py_min_fin, py_max_fin. eexists; split; [reflexivity|].
    split; [apply Q.le_max_r | apply Q.max_le_compat_r, Q.le_min_r].
  - right. cbn [py_min flt_lt]. rewrite py_max_fin. eexists; split; [reflexivity|].
    split; [apply Q.le_max_r | apply Qle_refl].
  - right. cbn [py_min py_max flt_lt]. eexists; split; [reflexivity|].
    split; [apply Qle_refl | apply Q.le_max_r].
  - left. split; reflexivity.
Qed.

Lemma clamp_round (s md : Q) :
  exists d, py_max (py_min (round s) (Fin md)) (Fin (1 # 10)) = Fin d /\
            1 # 10 <= d <= Qmax md (1 # 10).
Proof.
  destruct (clamp_cases (round s) md) as [[H _] | H]; [|exact H].
  exfalso; exact (round_not_nan s H).
Qed.

Lemma jitter_bounds (a r : Q) :
  -1 <= r * 2 - 1 <= 1 ->
  - Qabs (a * (1 # 4)) <= a * (1 # 4) * (r * 2 - 1) <= Qabs (a * (1 # 4)).
Proof.
  intros [Hu0 Hu1].
  destruct (Qlt_le_dec (a * (1 # 4)) 0) as [Hn | Hp].
  - rewrite Qabs_neg by lra.
    assert (H1 : (r * 2 - 1) * (- (a * (1 # 4))) <= 1 * (- (a * (1 # 4))))
      by (apply Qmult_le_compat_r; lra).
    assert (H2 : (-1) * (- (a * (1 # 4))) <= (r * 2 - 1) * (- (a * (1 # 4))))
      by (apply Qmult_le_compat_r; lra).
    split; lra.
  - rewrite Qabs_pos by lra.
    assert (H1 : (r * 2 - 1) * (a * (1 # 4)) <= 1 * (a * (1 # 4)))
      by (apply Qmult_le_compat_r; lra).
    assert (H2 : (-1) * (a * (1 # 4)) <= (r * 2 - 1) * (a * (1 # 4)))
      by (apply Qmult_le_compat_r; lra).
    split; lra.
Qed.

(** The jitter term [delay * 0.25 * (random.random() * 2 - 1)] of a
    finite delay, for a draw in [[0, 1]]. *)
Lemma jitter_fin (a r : Q) :
  - flt_ovf < a < flt_ovf -> 0 <= r <= 1 ->
  fmul (fmul (Fin a) (Fin (1 # 4))) (fsub (fmul (Fin r) (Fin 2)) (Fin 1)) =
    Fin (a * (1 # 4) * (r * 2 - 1)).
Proof.
  intros Ha Hr. pose proof flt_ovf_gt_1000.
  cbn [fmul]. rewrite (round_fin (a * (1 # 4))) by lra.
  rewrite (round_fin (r * 2)) by lra. cbn [fsub].
  rewrite (round_fin (r * 2 - 1)) by lra. cbn [fmul].
  apply round_fin.
  pose proof (jitter_bounds a r ltac:(lra)) as Hj.
  assert (Hq : Qabs (a * (1 # 4)) < flt_ovf).
  { apply Qabs_Qlt_condition. lra. }
  lra.
Qed.

Lemma int_to_float_ok (z : Z) :
  (Z.abs z < flt_ovf_int)%Z -> int_to_float z = PyOk (Fin (inject_Z z)).
Proof.
  intros H. unfold int_to_float.
  destruct (flt_ovf_int <=? Z.abs z)%Z eqn:E; [apply Z.leb_le in E; lia | reflexivity].
Qed.

Lemma int_to_float_overflow (z : Z) :
  (flt_ovf_int <= Z.abs z)%Z -> int_to_float z = PyRaise OverflowError.
Proof.
  intros H. unfold int_to_float. apply Z.leb_le in H. rewrite H. reflexivity.
Qed.

Lemma int_to_float_raise (z : Z) (x : PyError) :
  int_to_float z = PyRaise x -> x = OverflowError.
Proof.
  unfold int_to_float. destruct (flt_ovf_int <=? Z.abs z)%Z; intros H; congruence.
Qed.

Lemma pow2_small (j : nat) : (j < 1024)%nat -> (Z.abs (2 ^ Z.of_nat j) < flt_ovf_int)%Z.
Proof.
  intros Hj. rewrite Z.abs_eq by (apply Z.pow_nonneg; lia).
  apply Z.le_lt_trans with (2 ^ 1023)%Z.
  - apply Z.pow_le_mono_r; lia.
  - unfold flt_ovf_int. apply Z.ltb_lt. vm_compute. reflexivity.
Qed.

Lemma pow2_big (j : nat) : (1024 <= j)%nat -> (flt_ovf_int <= Z.abs (2 ^ Z.of_nat j))%Z.
Proof.
  intros Hj. rewrite Z.abs_eq by (apply Z.pow_nonneg; lia).
  apply Z.le_trans with (2 ^ 1024)%Z.
  - unfold flt_ovf_int. apply Z.leb_le. vm_compute. reflexivity.
  - apply Z.pow_le_mono_r; lia.
Qed.

Lemma inject_Z_pow_nonneg (j : nat) : 0 <= inject_Z (2 ^ Z.of_nat j).
Proof.
  change 0 with (inject_Z 0). rewrite <- Zle_Qle. apply Z.pow_nonneg. lia.
Qed.

(** [base_delay * 2 ** attempt] in range. *)
Lemma backoff_fin (b : Q) (j : nat) :
  Qabs b * inject_Z (2 ^ Z.of_nat j) < flt_ovf ->
  - flt_ovf < b * inject_Z (2 ^ Z.of_nat j) < flt_ovf.
Proof.
  intros H. apply Qabs_Qlt_condition.
  rewrite Qabs_Qmult, (Qabs_pos (inject_Z _)) by apply inject_Z_pow_nonneg. exact H.
Qed.

Lemma backoff_big (b : Q) (j : nat) :
  flt_ovf <= b * inject_Z (2 ^ Z.of_nat j) \/ b * inject_Z (2 ^ Z.of_nat j) <= - flt_ovf ->
  flt_ovf <= Qabs b * inject_Z (2 ^ Z.of_nat j).
Proof.
  intros H.
  assert (E : Qabs (b * inject_Z (2 ^ Z.of_nat j)) == Qabs b * inject_Z (2 ^ Z.of_nat j))
    by (rewrite Qabs_Qmult, (Qabs_pos (inject_Z _)) by apply inject_Z_pow_nonneg; reflexivity).
  rewrite <- E. destruct H as [H | H].
  - eapply Qle_trans; [exact H | apply Qle_Qabs].
  - assert (H' : - (b * inject_Z (2 ^ Z.of_nat j)) <= Qabs (b * inject_Z (2 ^ Z.of_nat j))).
    { rewrite <- Qabs_opp. apply Qle_Qabs. }
    lra.
Qed.

(** ** The reset hint *)

Lemma future_delay_truthy (k : Z) :
  (0 < k)%Z -> truthy (Some (Fin (inject_Z k / 1000))) = true.
Proof.
  intros Hk. unfold truthy, flt_truthy.
  destruct (Qeq_bool (inject_Z k / 1000) 0) eqn:E; [|reflexivity].
  apply Qeq_bool_iff in E. unfold Qeq in E. simpl in E. lia.
Qed.

Lemma hint_seconds_range (k : Z) :
  (0 < k)%Z -> (k < flt_ovf_int)%Z -> 0 < inject_Z k / 1000 < flt_ovf.
Proof.
  intros H0 H1.
  assert (Hk : inject_Z k < flt_ovf) by (unfold flt_ovf; rewrite <- Zlt_Qlt; exact H1).
  assert (Hk0 : 0 < inject_Z k) by (change 0 with (inject_Z 0); rewrite <- Zlt_Qlt; exact H0).
  pose proof flt_ovf_gt_1000.
  change (inject_Z k / 1000) with (inject_Z k * (1 # 1000)). lra.
Qed.

Lemma hint_seconds_small (k : Z) :
  (k < flt_ovf_int)%Z -> inject_Z k / 1000 < flt_ovf * (1 # 1000).
Proof.
  intros H1.
  assert (Hk : inject_Z k < flt_ovf) by (unfold flt_ovf; rewrite <- Zlt_Qlt; exact H1).
  change (inject_Z k / 1000) with (inject_Z k * (1 # 1000)). lra.
Qed.

Lemma hint_seconds_fin (k : Z) :
  (0 < k)%Z -> (k < flt_ovf_int)%Z ->
  fdiv_pos (Fin (inject_Z k)) 1000 = Fin (inject_Z k / 1000).
Proof.
  intros H0 H1. cbn [fdiv_pos]. apply round_fin.
  pose proof (hint_seconds_range k H0 H1). pose proof flt_ovf_gt_1000. lra.
Qed.

Lemma extract_retry_after_some (msg : string) (now_ms : Z) (v : pyfloat) :
  extract_retry_after msg now_ms = PyOk (Some v) ->
  exists t, Hint.re_search msg <> None /\ (now_ms < t)%Z /\ (t - now_ms < flt_ovf_int)%Z /\
            v = Fin (inject_Z (t - now_ms) / 1000).
Proof.
  unfold extract_retry_after.
  destruct (Hint.re_search msg) as [g|]; [|discriminate].
  destruct (Hint.py_int g) as [t|]; [|discriminate].
  destruct (now_ms <? t)%Z eqn:E; [|discriminate].
  apply Z.ltb_lt in E.
  destruct (flt_ovf_int <=? Z.abs (t - now_ms))%Z eqn:E2.
  { rewrite int_to_float_overflow by (apply Z.leb_le; exact E2). discriminate. }
  apply Z.leb_gt in E2. rewrite int_to_float_ok by lia. cbn [py_bind].
  intros H. injection H as <-. exists t.
  split; [discriminate|]. split; [exact E|]. split; [lia|].
  apply hint_seconds_fin; lia.
Qed.

Lemma extract_retry_after_raise (msg : string) (now_ms : Z) (x : PyError) :
  extract_retry_after msg now_ms = PyRaise x -> x = OverflowError.
Proof.
  unfold extract_retry_after.
  destruct (Hint.re_search msg) as [g|]; [|discriminate].
  destruct (Hint.py_int g) as [t|]; [|discriminate].
  destruct (now_ms <? t)%Z; [|discriminate].
  destruct (int_to_float (t - now_ms)) eqn:E; cbn [py_bind]; [discriminate|].
  intros H. injection H as <-. exact (int_to_float_raise _ _ E).
Qed.

Lemma extract_retry_after_safe (msg : string) (now_ms : Z) :
  (0 <= now_ms)%Z -> hint_below_overflow msg = true ->
  extract_retry_after msg now_ms = PyOk None \/
  exists d, extract_retry_after msg now_ms = PyOk (Some (Fin d)) /\ 0 < d < flt_ovf.
Proof.
  intros Hn Hb. unfold hint_below_overflow in Hb. unfold extract_retry_after.
  destruct (Hint.re_search msg) as [g|]; [|left; reflexivity].
  destruct (Hint.py_int g) as [t|]; [|left; reflexivity].
  apply Z.ltb_lt in Hb.
  destruct (now_ms <? t)%Z eqn:E; [|left; reflexivity].
  apply Z.ltb_lt in E. right.
  rewrite int_to_float_ok by lia. cbn [py_bind]. rewrite hint_seconds_fin by lia.
  eexists; split; [reflexivity|]. apply hint_seconds_range; lia.
Qed.

(** ** Properties of the backoff *)

(** The float [_calculate_delay] returns is NaN or lies in
    [[0.1, max(max_delay, 0.1)]]. *)
Lemma calculate_delay_result self attempt msg now_ms r v :
  calculate_delay self attempt msg now_ms r = PyOk v ->
  v = NaN \/ exists d, v = Fin d /\ 1 # 10 <= d <= Qmax (max_delay self) (1 # 10).
Proof.
  unfold calculate_delay. cbv zeta. intros H.
  destruct (extract_retry_after msg now_ms) as [ra|x]; cbn [py_bind] in H; [|discriminate].
  match type of H with py_bind ?m _ = _ => destruct m as [dv|x]; cbn [py_bind] in H end;
    [|discriminate].
  injection H as <-.
  match goal with |- context [py_max (py_min ?x (Fin ?md)) (Fin (1 # 10))] =>
    destruct (clamp_cases x md) as [[_ ->] | [d [-> Hd]]] end;
    [left; reflexivity | right; exists d; split; [reflexivity | exact Hd]].
Qed.

(** The backoff of a finite pre-jitter delay [a]: the jitter, the sum and
    the clamp. *)
Lemma clamp_jitter_fin (a md r : Q) :
  - flt_ovf < a < flt_ovf -> 0 <= r <= 1 ->
  exists d,
    py_max (py_min (fadd (Fin a) (fmul (fmul (Fin a) (Fin (1 # 4)))
                                        (fsub (fmul (Fin r) (Fin 2)) (Fin 1))))
                   (Fin md)) (Fin (1 # 10)) = Fin d /\
    1 # 10 <= d <= Qmax md (1 # 10).
Proof.
  intros Ha Hr. rewrite jitter_fin by assumption. cbn [fadd]. apply clamp_round.
Qed.

(** The backoff of an infinite or finite pre-jitter delay. *)
Lemma final_cases (dv : pyfloat) (md r : Q) :
  0 <= r <= 1 -> (forall a, dv = Fin a -> - flt_ovf < a < flt_ovf) -> dv <> NaN ->
  (exists d,
     py_max (py_min (fadd dv (fmul (fmul dv (Fin (1 # 4)))
                                   (fsub (fmul (Fin r) (Fin 2)) (Fin 1))))
                    (Fin md)) (Fin (1 # 10)) = Fin d /\
     1 # 10 <= d <= Qmax md (1 # 10)) \/
  ((dv = PInf \/ dv = NInf) /\
   py_max (py_min (fadd dv (fmul (fmul dv (Fin (1 # 4)))
                                 (fsub (fmul (Fin r) (Fin 2)) (Fin 1))))
                  (Fin md)) (Fin (1 # 10)) = NaN).
Proof.
  intros Hr Hf Hn. destruct dv as [a| | |].
  - left. apply clamp_jitter_fin; [apply Hf; reflexivity | exact Hr].
  - match goal with |- context [py_max (py_min ?x (Fin md)) (Fin (1 # 10))] =>
      destruct (clamp_cases x md) as [[_ E] | E] end;
      [right; split; [left; reflexivity | exact E] | left; exact E].
  - match goal with |- context [py_max (py_min ?x (Fin md)) (Fin (1 # 10))] =>
      destruct (clamp_cases x md) as [[_ E] | E] end;
      [right; split; [right; reflexivity | exact E] | left; exact E].
  - congruence.
Qed.

(** [base_delay * (2 ** attempt)]: finite and in range, or infinite when
    the exact product is out of range. *)
Lemma backoff_value (b : Q) (j : nat) (dv : pyfloat) :
  py_bind (int_to_float (2 ^ Z.of_nat j)) (fun p => PyOk (fmul (Fin b) p)) = PyOk dv ->
  (forall a, dv = Fin a -> - flt_ovf < a < flt_ovf) /\ dv <> NaN /\
  (dv = PInf \/ dv = NInf -> flt_ovf <= Qabs b * inject_Z (2 ^ Z.of_nat j)).
Proof.
  unfold int_to_float.
  destruct (flt_ovf_int <=? Z.abs (2 ^ Z.of_nat j))%Z; cbn [py_bind]; [discriminate|].
  intros H. injection H as <-. cbn [fmul].
  destruct (round_cases (b * inject_Z (2 ^ Z.of_nat j))) as [[-> Hg] | [[-> Hl] | [-> Hin]]].
  - split; [intros a Ha; discriminate|]. split; [discriminate|].
    intros _. apply backoff_big. left. exact Hg.
  - split; [intros a Ha; discriminate|]. split; [discriminate|].
    intros _. apply backoff_big. right. exact Hl.
  - split; [intros a Ha; injection Ha as <-; exact Hin|].
    split; [discriminate | intros [E | E]; discriminate].
Qed.

(** [_calculate_delay] without a hint, when [2 ** attempt] converts and
    [base_delay * 2 ** attempt] is in range. *)
Lemma calculate_delay_no_hint self attempt msg now_ms r :
  extract_retry_after msg now_ms = PyOk None -> (attempt < 1024)%nat ->
  Qabs (base_delay self) * inject_Z (2 ^ Z.of_nat attempt) < flt_ovf -> 0 <= r <= 1 ->
  calculate_delay self attempt msg now_ms r =
    PyOk (py_max (py_min (round (base_delay self * inject_Z (2 ^ Z.of_nat attempt) +
                                 base_delay self * inject_Z (2 ^ Z.of_nat attempt) * (1 # 4) *
                                 (r * 2 - 1)))
                         (Fin (max_delay self))) (Fin (1 # 10))).
Proof.
  intros Hno Ha Hf Hr. unfold calculate_delay. rewrite Hno. cbn [py_bind].
  rewrite int_to_float_ok by (apply pow2_small; exact Ha). cbn [py_bind].
  assert (E : fmul (Fin (base_delay self)) (Fin (inject_Z (2 ^ Z.of_nat attempt))) =
              Fin (base_delay self * inject_Z (2 ^ Z.of_nat attempt)))
    by (apply round_fin, backoff_fin, Hf).
  rewrite E, jitter_fin by (first [apply backoff_fin; exact Hf | exact Hr]).
  reflexivity.
Qed.

Lemma clamp_round_mono (s t md : Q) :
  0 <= s <= t ->
  exists ds dt,
    py_max (py_min (round s) (Fin md)) (Fin (1 # 10)) = Fin ds /\
    py_max (py_min (round t) (Fin md)) (Fin (1 # 10)) = Fin dt /\ ds <= dt.
Proof.
  intros [H0 H1]. pose proof flt_ovf_gt_1000.
  destruct (round_cases s) as [[-> Hs] | [[-> Hs] | [-> Hs]]];
  destruct (round_cases t) as [[-> Ht] | [[-> Ht] | [-> Ht]]]; try lra;
    cbn [py_min flt_lt]; rewrite ?py_min_fin, ?py_max_fin; do 2 eexists;
    (split; [reflexivity|]); (split; [reflexivity|]).
  - apply Qle_refl.
  - apply Q.max_le_compat_r, Q.le_min_r.
  - apply Q.max_le_compat_r, Q.min_le_compat_r. exact H1.
Qed.

(** In the regime of [backoff_safe], [_calculate_delay] returns a finite
    delay in [[0.1, max(max_delay, 0.1)]]. *)
Lemma calculate_delay_safe self attempt msg now_ms r :
  (attempt < 1024)%nat ->
  Qabs (base_delay self) * inject_Z (2 ^ Z.of_nat attempt) < flt_ovf ->
  0 <= r <= 1 -> (0 <= now_ms)%Z -> hint_below_overflow msg = true ->
  exists d, calculate_delay self attempt msg now_ms r = PyOk (Fin d) /\
            1 # 10 <= d <= Qmax (max_delay self) (1 # 10).
Proof.
  intros Hatt Hfin Hr Hn Hh.
  destruct (extract_retry_after_safe msg now_ms Hn Hh) as [Hx | [d [Hx Hd]]].
  - rewrite (calculate_delay_no_hint self attempt msg now_ms r Hx Hatt Hfin Hr).
    match goal with |- context [py_max (py_min (round ?s) (Fin ?md)) _] =>
      destruct (clamp_round s md) as [d [E Hd]] end.
    exists d. rewrite E. split; [reflexivity | exact Hd].
  - unfold calculate_delay. rewrite Hx. cbn [py_bind].
    assert (Ht : truthy (Some (Fin d)) = true).
    { unfold truthy, flt_truthy.
      destruct (Qeq_bool d 0) eqn:E; [apply Qeq_bool_iff in E; lra | reflexivity]. }
    rewrite Ht. cbn [py_bind]. pose proof flt_ovf_gt_1000.
    destruct (clamp_jitter_fin d (max_delay self) r ltac:(lra) Hr) as [d' [E Hd']].
    exists d'. rewrite E. split; [reflexivity | exact Hd'].
Qed.

Lemma float_to_int_nonneg (q : Q) : 0 <= q -> (0 <= float_to_int q)%Z.
Proof.
  intros H. unfold float_to_int. rewrite (proj2 (Qle_bool_iff 0 q) H).
  pose proof (Qfloor_resp_le 0 q H) as Hf. change (Qfloor 0) with 0%Z in Hf. lia.
Qed.

Lemma time_sleep_ok (os : Q -> bool) (w : World) (d md : Q) :
  1 # 10 <= d <= Qmax md (1 # 10) ->
  Qmax md (1 # 10) * inject_Z (10 ^ 9) < inject_Z (2 ^ 63) -> os d = true ->
  time_sleep os w (Fin d) = PyOk (sleep w d).
Proof.
  intros [H1 H2] Hm Hos. unfold time_sleep.
  destruct (Qle_bool (inject_Z (2 ^ 63)) (Qabs d * inject_Z (10 ^ 9))) eqn:E.
  - apply Qle_bool_iff in E. rewrite Qabs_pos in E by lra.
    assert (H3 : d * inject_Z (10 ^ 9) <= Qmax md (1 # 10) * inject_Z (10 ^ 9))
      by (apply Qmult_le_compat_r; [exact H2 | vm_compute; discriminate]).
    lra.
  - rewrite (proj2 (Qle_bool_iff 0 d) ltac:(lra)). cbn [negb]. rewrite Hos. reflexivity.
Qed.

Lemma pow_bound_all (b : Q) (i : nat) :
  Qabs b * inject_Z (2 ^ Z.of_nat i) < flt_ovf ->
  forall j, (j < i)%nat -> Qabs b * inject_Z (2 ^ Z.of_nat j) < flt_ovf.
Proof.
  intros H j Hj. eapply Qle_lt_trans; [|exact H].
  rewrite !(Qmult_comm (Qabs b)). apply Qmult_le_compat_r; [|apply Qabs_nonneg].
  rewrite <- Zle_Qle. apply Z.pow_le_mono_r; lia.
Qed.

Lemma os_9e9_ok (md : Q) :
  Qmax md (1 # 10) <= 9000000000 ->
  forall d, 1 # 10 <= d <= Qmax md (1 # 10) -> os_9e9 d = true.
Proof. intros H d [_ Hd]. unfold os_9e9. apply Qle_bool_iff. exact (Qle_trans _ _ _ Hd H). Qed.

(** C1 (claim as stated).  A hint written with no quote between [Reset]
    and the colon, a double-quoted 5000 after it, at [now_ms = 0] is not
    found by the pattern: the pre-jitter delay is [base_delay * 2^0 = 1],
    not [5000 / 1000 = 5]. *)
Lemma C1_spec_form_hint_ignored :
  extract_retry_after spec_form_message 0 = PyOk None /\
  calculate_delay (mkRateLimiter 3 1 60) 0 spec_form_message 0 (1 # 2) = PyOk (Fin (8 # 8)) /\
  ~ (8 # 8 == (let d := inject_Z (5000 - 0) / 1000 in
           Qmax (Qmin (d + d * (1 # 4) * ((1 # 2) * 2 - 1)) 60) (1 # 10))).
Proof.
  split; [vm_compute; reflexivity|]. split; [vm_compute; reflexivity|].
  vm_compute. intros H; discriminate.
Qed.

(** C1 (amended).  Let the leftmost match of the pattern of
    [_extract_retry_after] be a hint [X-RateLimit-Reset<q>:<ws><q><ds><q>]
    (quotes [q], whitespace [ws]) whose value [ds] is the decimal digits
    of a timestamp [T > now_ms], and let the jitter draw lie in [[0, 1]].
    If [ds] has at most 4300 digits and [T - now_ms < 2^1024 - 2^970], the
    hint is [d = (T - now_ms) / 1000] and the delay before jitter and
    clamping is [d] instead of [base_delay * 2^attempt].  If [ds] has at
    most 4300 digits and [T - now_ms >= 2^1024 - 2^970], both functions
    raise [OverflowError].  If [ds] has more than 4300 digits, [int()]
    fails, there is no hint, and the delay is the one of a message without
    hint. *)
Theorem calculate_delay_reset_hint (self : RateLimiter) (attempt : nat)
    (pre ws ds post : string) (q1 q2 q3 : ascii) (now_ms : Z) (r : Q)
    (Hq1 : Hint.is_quote q1 = true) (Hq2 : Hint.is_quote q2 = true)
    (Hq3 : Hint.is_quote q3 = true)
    (Hws : all_chars Str.is_space ws = true)
    (Hne : ds <> EmptyString) (Hds : all_chars Str.is_digit ds = true)
    (Hfirst : forall p1 p2, pre = p1 ++ p2 -> p2 <> EmptyString ->
              Hint.match_at (p2 ++ reset_hint q1 ws q2 ds q3 post) = None)
    (Hfuture : (now_ms < decimal_value ds)%Z)
    (Hr : 0 <= r <= 1) :
  let msg := pre ++ reset_hint q1 ws q2 ds q3 post in
  let d := inject_Z (decimal_value ds - now_ms) / 1000 in
  ((Hint.digit_count ds <= Hint.max_str_digits)%nat ->
   (decimal_value ds - now_ms < flt_ovf_int)%Z ->
   extract_retry_after msg now_ms = PyOk (Some (Fin d)) /\
   calculate_delay self attempt msg now_ms r =
     PyOk (Fin (Qmax (Qmin (d + d * (1 # 4) * (r * 2 - 1)) (max_delay self)) (1 # 10)))) /\
  ((Hint.digit_count ds <= Hint.max_str_digits)%nat ->
   (flt_ovf_int <= decimal_value ds - now_ms)%Z ->
   extract_retry_after msg now_ms = PyRaise OverflowError /\
   calculate_delay self attempt msg now_ms r = PyRaise OverflowError) /\
  ((Hint.max_str_digits < Hint.digit_count ds)%nat ->
   extract_retry_after msg now_ms = PyOk None /\
   calculate_delay self attempt msg now_ms r =
     calculate_delay self attempt EmptyString now_ms r).
Proof.
  cbv zeta.
  assert (Hs : Hint.re_search (pre ++ reset_hint q1 ws q2 ds q3 post) = Some ds)
    by (rewrite (re_search_skip pre _ Hfirst); apply re_search_hint; assumption).
  split; [|split].
  - intros Hlen Hsmall.
    assert (Hx : extract_retry_after (pre ++ reset_hint q1 ws q2 ds q3 post) now_ms =
                 PyOk (Some (Fin (inject_Z (decimal_value ds - now_ms) / 1000)))).
    { unfold extract_retry_after. rewrite Hs, (py_int_digits ds Hne Hds Hlen).
      destruct (now_ms <? decimal_value ds)%Z eqn:E; [|apply Z.ltb_ge in E; lia].
      rewrite int_to_float_ok by lia. cbn [py_bind].
      rewrite hint_seconds_fin by lia. reflexivity. }
    split; [exact Hx|].
    unfold calculate_delay. rewrite Hx. cbn [py_bind].
    rewrite future_delay_truthy by lia. cbn [py_bind].
    pose proof (hint_seconds_range (decimal_value ds - now_ms) ltac:(lia) Hsmall) as Hd.
    pose proof (hint_seconds_small (decimal_value ds - now_ms) Hsmall) as Hd'.
    set (d := inject_Z (decimal_value ds - now_ms) / 1000) in *.
    pose proof flt_ovf_gt_1000.
    rewrite jitter_fin by (first [lra | exact Hr]). cbn [fadd].
    pose proof (jitter_bounds d r ltac:(lra)) as J.
    rewrite Qabs_pos in J by lra.
    rewrite round_fin by lra. rewrite py_min_fin, py_max_fin. reflexivity.
  - intros Hlen Hbig.
    assert (Hx : extract_retry_after (pre ++ reset_hint q1 ws q2 ds q3 post) now_ms =
                 PyRaise OverflowError).
    { unfold extract_retry_after. rewrite Hs, (py_int_digits ds Hne Hds Hlen).
      destruct (now_ms <? decimal_value ds)%Z eqn:E; [|apply Z.ltb_ge in E; lia].
      rewrite int_to_float_overflow by lia. reflexivity. }
    split; [exact Hx|]. unfold calculate_delay. rewrite Hx. reflexivity.
  - intros Hlen.
    assert (Hx : extract_retry_after (pre ++ reset_hint q1 ws q2 ds q3 post) now_ms =
                 PyOk None).
    { unfold extract_retry_after. rewrite Hs, (py_int_too_long ds Hds Hlen). reflexivity. }
    split; [exact Hx|]. unfold calculate_delay. rewrite Hx. reflexivity.
Qed.

(** C5 (claim as stated).  With [base_delay = max_delay = 0.05] (so
    [0 < base_delay <= max_delay]) and no hint, the floor of 0.1 puts the
    delay above [max_delay].  With [base_delay = max_delay = 10^308] the
    doubled delay of attempt 1 is infinite and the jitter draw 0.25 makes
    it NaN; at attempt 1024 [2 ** attempt] does not convert to a float and
    [_calculate_delay] raises [OverflowError]. *)
Lemma C5_delay_bounds_fail :
  0 < 1 # 20 /\ (1 # 20) <= (1 # 20) /\
  extract_retry_after "Rate limit exceeded" 0 = PyOk None /\
  calculate_delay (mkRateLimiter 3 (1 # 20) (1 # 20)) 0 "Rate limit exceeded" 0 (1 # 2) =
    PyOk (Fin (1 # 10)) /\
  ~ ((1 # 10) <= 1 # 20) /\
  0 < base_delay limiter_huge /\ base_delay limiter_huge <= max_delay limiter_huge /\
  calculate_delay limiter_huge 1 "Rate limit exceeded" 0 (1 # 4) = PyOk NaN /\
  calculate_delay limiter3 1024 "Rate limit exceeded" 0 (1 # 2) = PyRaise OverflowError.
Proof.
  split; [reflexivity|]. split; [discriminate|]. split; [reflexivity|].
  split; [vm_compute; reflexivity|].
  split; [apply Qlt_not_le; vm_compute; reflexivity|].
  split; [vm_compute; reflexivity|]. split; [vm_compute; discriminate|].
  split; vm_compute; reflexivity.
Qed.

(** C5 (amended).  With no server hint, an attempt below 1024, a finite
    product [base_delay * 2^attempt] (magnitude below [2^1024 - 2^970])
    and a jitter draw in [[0, 1]], [_calculate_delay] returns a finite
    delay: the pre-jitter delay is [base_delay * 2^attempt], the jitter
    moves it by at most 25% (for [base_delay > 0]), the sum is capped at
    [max_delay] and then floored at 0.1, so
    [0.1 <= delay <= max(max_delay, 0.1)]; [delay <= max_delay] holds only
    when [max_delay >= 0.1]. *)
Theorem calculate_delay_bounds (self : RateLimiter) (attempt : nat)
    (msg : string) (now_ms : Z) (r : Q)
    (Hno : extract_retry_after msg now_ms = PyOk None)
    (Hatt : (attempt < 1024)%nat)
    (Hfin : Qabs (base_delay self) * inject_Z (2 ^ Z.of_nat attempt) < flt_ovf)
    (Hr : 0 <= r <= 1) :
  let d := base_delay self * inject_Z (2 ^ Z.of_nat attempt) in
  let jitter := d * (1 # 4) * (r * 2 - 1) in
  exists delay,
    calculate_delay self attempt msg now_ms r = PyOk (Fin delay) /\
    (Qabs (d + jitter) < flt_ovf ->
     delay = Qmax (Qmin (d + jitter) (max_delay self)) (1 # 10)) /\
    (0 < base_delay self -> (3 # 4) * d <= d + jitter <= (5 # 4) * d) /\
    (1 # 10) <= delay /\
    delay <= Qmax (max_delay self) (1 # 10) /\
    ((1 # 10) <= max_delay self -> delay <= max_delay self).
Proof.
  cbv zeta. rewrite (calculate_delay_no_hint self attempt msg now_ms r Hno Hatt Hfin Hr).
  set (d := base_delay self * inject_Z (2 ^ Z.of_nat attempt)).
  assert (Hj : 0 < base_delay self ->
               (3 # 4) * d <= d + d * (1 # 4) * (r * 2 - 1) <= (5 # 4) * d).
  { intros Hb. pose proof (jitter_bounds d r ltac:(lra)) as J.
    assert (Hd0 : 0 <= d).
    { unfold d. apply Qmult_le_0_compat; [lra | apply inject_Z_pow_nonneg]. }
    rewrite Qabs_pos in J by lra. lra. }
  destruct (round_cases (d + d * (1 # 4) * (r * 2 - 1))) as [[-> Hs] | [[-> Hs] | [-> Hs]]].
  - cbn [py_min flt_lt]. rewrite py_max_fin. eexists. split; [reflexivity|].
    split; [intros Ha; pose proof (Qle_Qabs (d + d * (1 # 4) * (r * 2 - 1))); lra|].
    split; [exact Hj|]. split; [apply Q.le_max_r|]. split; [apply Qle_refl|].
    intros Hm. rewrite Q.max_l by exact Hm. apply Qle_refl.
  - cbn [py_min py_max flt_lt]. eexists. split; [reflexivity|].
    split; [intros Ha; apply Qabs_Qlt_condition in Ha; lra|].
    split; [exact Hj|]. split; [apply Qle_refl|]. split; [apply Q.le_max_r|].
    intros Hm; exact Hm.
  - rewrite py_min_fin, py_max_fin. eexists. split; [reflexivity|].
    split; [intros _; reflexivity|]. split; [exact Hj|].
    split; [apply Q.le_max_r|]. split; [apply Q.max_le_compat_r, Q.le_min_r|].
    intros Hm. apply Q.max_lub; [apply Q.le_min_r | exact Hm].
Qed.

(** ** Classification *)

(** C4.  An error is a rate-limit error iff its lowercased message
    contains one of the four keywords; the verdict depends on the message
    only. *)
Theorem is_rate_limit_error_spec (e : Exc) :
  (is_rate_limit_error e = true <->
     exists keyword,
       In keyword ["rate limit"; "429"; "too many requests"; "quota exceeded"] /\
       exists pre post, Str.lower (exc_msg e) = pre ++ keyword ++ post) /\
  (forall e', exc_msg e' = exc_msg e -> is_rate_limit_error e' = is_rate_limit_error e).
Proof.
  split.
  - unfold is_rate_limit_error. rewrite existsb_exists.
    split; intros [k [Hin Hc]]; exists k; split; try exact Hin;
      apply contains_spec; exact Hc.
  - intros e' He. unfold is_rate_limit_error. rewrite He. reflexivity.
Qed.

(** ** The attempt loop *)

Section LoopProofs.
Context {V : Type} (self : RateLimiter) (env : Env V).

(** A backoff that returns has slept between 0.1 and
    [max(max_delay, 0.1)] seconds. *)
Lemma backoff_ok (a : nat) (e : Exc) (w w3 : World) :
  backoff self env a e w = PyOk w3 ->
  exists d, w3 = sleep w d /\ 1 # 10 <= d <= Qmax (max_delay self) (1 # 10).
Proof.
  unfold backoff. intros H.
  destruct (calculate_delay self a (exc_msg e) (float_to_int (clock w * 1000)) (rnd env a))
    as [v|x] eqn:E; cbn [py_bind] in H; [|discriminate].
  destruct (calculate_delay_result _ _ _ _ _ _ E) as [-> | [d [-> Hd]]]; [discriminate|].
  unfold time_sleep in H.
  destruct (Qle_bool (inject_Z (2 ^ 63)) (Qabs d * inject_Z (10 ^ 9))); [discriminate|].
  destruct (negb (Qle_bool 0 d)); [discriminate|].
  destruct (os_accepts env d); [|discriminate].
  injection H as <-. exists d. split; [reflexivity | exact Hd].
Qed.

Lemma backoff_succeeds (a : nat) (e : Exc) (w : World) :
  (a < 1024)%nat -> Qabs (base_delay self) * inject_Z (2 ^ Z.of_nat a) < flt_ovf ->
  0 <= rnd env a <= 1 -> hint_below_overflow (exc_msg e) = true -> 0 <= clock w ->
  Qmax (max_delay self) (1 # 10) * inject_Z (10 ^ 9) < inject_Z (2 ^ 63) ->
  (forall d, 1 # 10 <= d <= Qmax (max_delay self) (1 # 10) -> os_accepts env d = true) ->
  exists w3, backoff self env a e w = PyOk w3.
Proof.
  intros Ha Hf Hr Hh Hc Hm Hos. unfold backoff.
  assert (Hn : (0 <= float_to_int (clock w * 1000))%Z) by (apply float_to_int_nonneg; lra).
  destruct (calculate_delay_safe self a (exc_msg e) _ (rnd env a) Ha Hf Hr Hn Hh)
    as [d [-> Hd]].
  cbn [py_bind]. exists (sleep w d).
  apply (time_sleep_ok _ _ _ (max_delay self) Hd Hm). apply Hos, Hd.
Qed.

(** The [except] clause after a rate-limit error that is not on the last
    attempt: a backoff that returns, or an exception that escapes. *)
Ltac bk_step H :=
  lazymatch type of H with
  | context [backoff self env ?att ?ee ?ww] =>
      let Hbk := fresh "Hbk" in
      destruct (backoff self env att ee ww) as [w3|x] eqn:Hbk;
      [ let dd := fresh "dd" in let Hdd := fresh "Hdd" in
        destruct (backoff_ok _ _ _ _ Hbk) as [dd [-> Hdd]]
      | ]
  end.

(** One iteration of [retry_loop], split on the outcome of the operation. *)
Ltac loop_step H :=
  cbn [retry_loop] in H;
  lazymatch type of H with
  | context [op env ?a] =>
      destruct (op env a) as [v0|e0] eqn:Hop;
      [ injection H as <- <-
      | destruct (negb (is_rate_limit_error e0)) eqn:Hrl;
        [ injection H as <- <-
        | destruct (Z.of_nat a =? max_retries self)%Z eqn:Hk;
          [ injection H as <- <- | bk_step H; [ | injection H as <- <- ] ] ] ]
  end.

Lemma paced_spec (current_time last : Q) :
  paced current_time last == Qmax current_time (last + min_interval).
Proof.
  unfold paced. destruct (Qle_bool min_interval (current_time - last)) eqn:E; simpl.
  - apply Qle_bool_iff in E. rewrite Q.max_l by lra. reflexivity.
  - assert (E' : ~ min_interval <= current_time - last)
      by (intros H; apply Qle_bool_iff in H; congruence).
    apply Qnot_le_lt in E'. rewrite Q.max_r by lra. lra.
Qed.

Lemma paced_ge (current_time last : Q) : current_time <= paced current_time last.
Proof. rewrite paced_spec. apply Q.le_max_l. Qed.

Lemma retry_loop_counts (n a : nat) (le : option Exc) (w w' : World) (r : CallResult V) :
  retry_loop self env n a le w = (r, w') ->
  (calls w <= calls w')%nat /\
  (request_count w' = request_count w + Z.of_nat (calls w' - calls w))%Z /\
  length (starts w') = (length (starts w) + (calls w' - calls w))%nat /\
  (calls w' = calls w -> w' = w) /\
  ((calls w < calls w')%nat -> hd_error (starts w') = Some (last_request_time w')).
Proof.
  revert a le w w' r. induction n as [|n IH]; intros a le w w' r H.
  - cbn [retry_loop] in H. injection H as <- <-.
    repeat split; intros; try lia; try reflexivity.
  - loop_step H;
      try (cbn [calls request_count starts last_request_time length hd_error];
           split; [lia|]; split; [lia|]; split; [lia|]; split; [intros; lia|];
           intros; reflexivity).
    set (w2 := sleep _ _) in H.
    destruct (IH _ _ _ _ _ H) as (Hle & Hrc & Hlen & Heq & Hhd).
    assert (Hc2 : calls w2 = S (calls w)) by reflexivity.
    split; [lia|]. split; [cbn in Hrc; lia|]. split; [cbn in Hlen |- *; lia|].
    split; [lia|].
    intros Hlt. destruct (Nat.eq_dec (calls w') (calls w2)) as [E|E].
    + rewrite (Heq E). reflexivity.
    + apply Hhd. lia.
Qed.

Lemma retry_loop_exhausts (n a : nat) (le : option Exc) (w w' : World) (r : CallResult V) :
  (Z.of_nat (a + n) = max_retries self + 1)%Z -> (0 < n)%nat ->
  (forall i, exists e, op env i = Err e /\ is_rate_limit_error e = true) ->
  (forall j e w2, (Z.of_nat j < max_retries self)%Z -> op env j = Err e -> 0 <= clock w2 ->
     exists w3, backoff self env j e w2 = PyOk w3) ->
  (forall j, 0 <= dur env j) -> 0 <= clock w ->
  retry_loop self env n a le w = (r, w') ->
  calls w' = (calls w + n)%nat /\ exists e, op env (a + n - 1) = Err e /\ r = Raised e.
Proof.
  revert a le w w' r.
  induction n as [|n IH]; intros a le w w' r Hn Hpos Hall Hsafe Hdur Hc H; [lia|].
  destruct (Hall a) as [e [Hea Hrle]].
  pose proof (paced_ge (clock w) (last_request_time w)) as Hp. pose proof (Hdur a) as Hd.
  cbn [retry_loop] in H. rewrite Hea, Hrle in H. simpl negb in H. cbv iota in H.
  destruct (Z.of_nat a =? max_retries self)%Z eqn:Hk.
  - injection H as <- <-. apply Z.eqb_eq in Hk. assert (n = 0%nat) by lia. subst n.
    split; [cbn; lia|]. exists e. split; [|reflexivity].
    replace (a + 1 - 1)%nat with a by lia. exact Hea.
  - apply Z.eqb_neq in Hk.
    match type of H with context [backoff self env a e ?w2] =>
      destruct (Hsafe a e w2 ltac:(lia) Hea ltac:(cbn [clock]; lra)) as [w3 Hw3];
      rewrite Hw3 in H; destruct (backoff_ok _ _ _ _ Hw3) as [dd [-> Hdd]]
    end.
    match type of H with retry_loop _ _ _ _ _ ?w3 = _ =>
      assert (Hc3 : 0 <= clock w3) by (cbn [sleep clock]; lra) end.
    destruct (IH (S a) _ _ _ _ ltac:(lia) ltac:(lia) Hall Hsafe Hdur Hc3 H)
      as [Hc' [e' [He' ->]]].
    split; [cbn in Hc'; lia|]. exists e'. split; [|reflexivity].
    replace (a + S n - 1)%nat with (S a + n - 1)%nat by lia. exact He'.
Qed.

Lemma retry_loop_success (n a i : nat) (v : V) (le : option Exc) (w w' : World)
    (r : CallResult V) :
  (Z.of_nat (a + n) = max_retries self + 1)%Z -> (a <= i)%nat -> (i < a + n)%nat ->
  (forall j, (a <= j < i)%nat ->
     exists e, op env j = Err e /\ is_rate_limit_error e = true) ->
  (forall j e w2, (j < i)%nat -> op env j = Err e -> 0 <= clock w2 ->
     exists w3, backoff self env j e w2 = PyOk w3) ->
  (forall j, 0 <= dur env j) -> 0 <= clock w ->
  op env i = Ok v ->
  retry_loop self env n a le w = (r, w') ->
  r = Returned v /\ calls w' = (calls w + (i - a) + 1)%nat.
Proof.
  revert a le w w' r.
  induction n as [|n IH]; intros a le w w' r Hn Hai Hin Hfail Hsafe Hdur Hc Hv H; [lia|].
  pose proof (paced_ge (clock w) (last_request_time w)) as Hp. pose proof (Hdur a) as Hd.
  cbn [retry_loop] in H.
  destruct (Nat.eq_dec a i) as [<- | Hne].
  - rewrite Hv in H. injection H as <- <-. split; [reflexivity | cbn; lia].
  - destruct (Hfail a ltac:(lia)) as [e [Hea Hrle]].
    rewrite Hea, Hrle in H. simpl negb in H. cbv iota in H.
    destruct (Z.of_nat a =? max_retries self)%Z eqn:Hk; [apply Z.eqb_eq in Hk; lia|].
    match type of H with context [backoff self env a e ?w2] =>
      destruct (Hsafe a e w2 ltac:(lia) Hea ltac:(cbn [clock]; lra)) as [w3 Hw3];
      rewrite Hw3 in H; destruct (backoff_ok _ _ _ _ Hw3) as [dd [-> Hdd]]
    end.
    match type of H with retry_loop _ _ _ _ _ ?w3 = _ =>
      assert (Hc3 : 0 <= clock w3) by (cbn [sleep clock]; lra) end.
    destruct (IH (S a) _ _ _ _ ltac:(lia) ltac:(lia) ltac:(lia)
                (fun j Hj => Hfail j ltac:(lia)) Hsafe Hdur Hc3 Hv H) as [-> Hc'].
    split; [reflexivity | cbn in Hc'; lia].
Qed.

Lemma retry_loop_raised (n a : nat) (le : option Exc) (w w' : World) (e : Exc) :
  retry_loop self env n a le w = (Raised e, w') ->
  (calls w < calls w')%nat /\ op env (a + (calls w' - calls w) - 1) = Err e.
Proof.
  revert a le w w'. induction n as [|n IH]; intros a le w w' H; [discriminate|].
  cbn [retry_loop] in H.
  destruct (op env a) as [v0|e0] eqn:Hop; [discriminate|].
  destruct (negb (is_rate_limit_error e0)).
  { injection H as -> <-. cbn [calls]. split; [lia|].
    replace (a + (S (calls w) - calls w) - 1)%nat with a by lia. exact Hop. }
  destruct (Z.of_nat a =? max_retries self)%Z.
  { injection H as -> <-. cbn [calls]. split; [lia|].
    replace (a + (S (calls w) - calls w) - 1)%nat with a by lia. exact Hop. }
  bk_step H; [|discriminate].
  destruct (IH _ _ _ _ H) as [Hlt Hop']. cbn [calls sleep] in Hlt, Hop'.
  split; [lia|].
  replace (a + (calls w' - calls w) - 1)%nat with (S a + (calls w' - S (calls w)) - 1)%nat
    by lia.
  exact Hop'.
Qed.

Lemma retry_loop_in_loop (n a : nat) (le : option Exc) (w : World) (l : option Exc) :
  (Z.of_nat (a + n) = max_retries self + 1)%Z -> (0 < n)%nat ->
  fst (retry_loop self env n a le w) <> RaisedLast l.
Proof.
  revert a le w. induction n as [|n IH]; intros a le w Hn Hpos; [lia|].
  cbn [retry_loop].
  destruct (op env a) as [v0|e0]; [discriminate|].
  destruct (negb (is_rate_limit_error e0)); [discriminate|].
  destruct (Z.of_nat a =? max_retries self)%Z eqn:Hk; [discriminate|].
  apply Z.eqb_neq in Hk.
  match goal with |- context [backoff self env ?att ?ee ?ww] =>
    destruct (backoff self env att ee ww) as [w3|x] end; [|discriminate].
  apply IH; lia.
Qed.

Lemma paced_after_last (current_time last : Q) :
  last + min_interval <= paced current_time last.
Proof. rewrite paced_spec. apply Q.le_max_r. Qed.

Lemma pacing_inv_sleep (w : World) (d : Q) :
  0 <= d -> pacing_inv w -> pacing_inv (sleep w d).
Proof. unfold pacing_inv, sleep; cbn. intros Hd (H1 & H2 & H3). repeat split; auto; lra. Qed.

Lemma pacing_inv_attempt (w : World) (dd : Q) (rc : Z) (c : nat) :
  0 <= dd -> pacing_inv w ->
  pacing_inv (mkWorld (paced (clock w) (last_request_time w) + dd)
                      (paced (clock w) (last_request_time w)) rc c
                      (paced (clock w) (last_request_time w) :: starts w)).
Proof.
  unfold pacing_inv; cbn. intros Hdd (H1 & H2 & H3).
  pose proof (paced_after_last (clock w) (last_request_time w)) as Hp.
  split; [lra|]. split; [|reflexivity].
  revert H2 H3. destruct (starts w) as [|t0 l]; intros H2 H3; [exact I|].
  split; [lra | exact H2].
Qed.

Lemma retry_loop_pacing (n a : nat) (le : option Exc) (w : World) :
  (forall i, 0 <= dur env i) -> pacing_inv w ->
  pacing_inv (snd (retry_loop self env n a le w)).
Proof.
  revert a le w. induction n as [|n IH]; intros a le w Hdur Hw; [exact Hw|].
  cbn [retry_loop].
  pose proof (pacing_inv_attempt w (dur env a) (request_count w + 1) (S (calls w))
                (Hdur a) Hw) as Hw2.
  destruct (op env a) as [v0|e0]; [exact Hw2|].
  destruct (negb (is_rate_limit_error e0)); [exact Hw2|].
  destruct (Z.of_nat a =? max_retries self)%Z; [exact Hw2|].
  match goal with |- context [backoff self env ?att ?ee ?ww] =>
    destruct (backoff self env att ee ww) as [w3|x] eqn:Hbk end; [|exact Hw2].
  destruct (backoff_ok _ _ _ _ Hbk) as [d [-> Hd]].
  apply IH; [exact Hdur|]. apply pacing_inv_sleep; [lra | exact Hw2].
Qed.

End LoopProofs.

Lemma no_earlier_match_ok (pre rest : string) :
  no_earlier_match pre rest = true ->
  forall p1 p2, pre = p1 ++ p2 -> p2 <> EmptyString -> Hint.match_at (p2 ++ rest) = None.
Proof.
  induction pre as [|c pre IH]; intros H p1 p2 Hp Hne.
  - destruct p1, p2; try discriminate; congruence.
  - simpl in H. destruct (Hint.match_at (String c (pre ++ rest))) eqn:Hm; [discriminate|].
    destruct p1 as [|c1 p1].
    + simpl in Hp. subst p2. exact Hm.
    + simpl in Hp. injection Hp as _ Hp. exact (IH H p1 p2 Hp Hne).
Qed.

(** The regime [backoff_safe] makes every backoff of attempts [0 .. i-1]
    return. *)
Lemma backoff_safe_step {V : Type} (self : RateLimiter) (env : Env V) (w : World) (i : nat) :
  backoff_safe self env w i ->
  forall j e w2, (j < i)%nat -> op env j = Err e -> 0 <= clock w2 ->
    exists w3, backoff self env j e w2 = PyOk w3.
Proof.
  intros (Hi & Hb & Hr & Hh & Hc & Hd & Hm & Hos) j e w2 Hj He Hc2.
  apply backoff_succeeds;
    [lia | apply Hb; lia | apply Hr; lia | exact (Hh j e Hj He) | exact Hc2 | exact Hm | exact Hos].
Qed.

(** ** The claims about [call_with_retry] *)

(** C2 (claim as stated).  [max_retries = 1], every invocation raises a
    429 whose reset hint is [10^400]: [(reset_timestamp - current_time) /
    1000.0] raises [OverflowError], which escapes from the [except] clause
    after one invocation instead of two. *)
Lemma C2_huge_hint_escapes :
  (0 <= max_retries (mkRateLimiter 1 1 60))%Z /\
  (forall i, exists e, op env_huge_hint i = Err e /\ is_rate_limit_error e = true) /\
  fst (call_with_retry (mkRateLimiter 1 1 60) env_huge_hint fresh_world) =
    Escaped OverflowError /\
  calls (snd (call_with_retry (mkRateLimiter 1 1 60) env_huge_hint fresh_world)) = 1%nat.
Proof.
  split; [vm_compute; discriminate|].
  split; [intros i; exists (mkExc i huge_hint_message); split; [reflexivity | vm_compute; reflexivity]|].
  split; vm_compute; reflexivity.
Qed.

(** C2 (amended).  With [max_retries = k >= 0], an operation that raises a
    rate-limit error on every invocation, and the backoffs after the
    attempts [0 .. k-1] in the regime [backoff_safe] (no float overflow,
    jitter draws in [[0, 1]], hints below [2^1024 - 2^970], sleeps that
    [time.sleep] and the operating system accept), the operation is
    invoked exactly [k + 1] times and the error of the last invocation is
    raised. *)
Theorem call_with_retry_attempt_bound {V : Type} (self : RateLimiter) (env : Env V)
    (w : World)
    (Hk : (0 <= max_retries self)%Z)
    (Hall : forall i, exists e, op env i = Err e /\ is_rate_limit_error e = true)
    (Hsafe : backoff_safe self env w (Z.to_nat (max_retries self))) :
  calls (snd (call_with_retry self env w)) = (calls w + Z.to_nat (max_retries self) + 1)%nat /\
  exists e, op env (Z.to_nat (max_retries self)) = Err e /\
            fst (call_with_retry self env w) = Raised e.
Proof.
  pose proof (backoff_safe_step _ _ _ _ Hsafe) as Hs.
  destruct Hsafe as (_ & _ & _ & _ & Hc & Hdur & _).
  destruct (call_with_retry self env w) as [r w'] eqn:E. unfold call_with_retry in E.
  apply retry_loop_exhausts in E;
    [| lia | lia | exact Hall
     | intros j e w2 Hj He Hc2; exact (Hs j e w2 ltac:(lia) He Hc2)
     | exact Hdur | exact Hc].
  destruct E as [Hc' [e [He ->]]]. cbn [fst snd].
  split; [lia|]. exists e. split; [|reflexivity].
  replace (Z.to_nat (max_retries self)) with (0 + Z.to_nat (max_retries self + 1) - 1)%nat
    by lia.
  exact He.
Qed.

(** C3.  When the first invocation raises an error that is not a
    rate-limit error, the operation is invoked once and that error is
    raised, whatever [max_retries >= 0] is. *)
Theorem call_with_retry_fast_fail {V : Type} (self : RateLimiter) (env : Env V)
    (w : World) (e : Exc)
    (Hk : (0 <= max_retries self)%Z)
    (Hop : op env 0%nat = Err e) (Hrl : is_rate_limit_error e = false) :
  fst (call_with_retry self env w) = Raised e /\
  calls (snd (call_with_retry self env w)) = S (calls w).
Proof.
  unfold call_with_retry.
  replace (Z.to_nat (max_retries self + 1)) with (S (Z.to_nat (max_retries self))) by lia.
  cbn [retry_loop]. rewrite Hop, Hrl. split; reflexivity.
Qed.

(** C6 (claim as stated).  Attempt 0 raises a 429 whose reset hint is
    [10^400] and attempt 1 would return 7: the [OverflowError] of the hint
    conversion escapes after one invocation and 7 is never returned. *)
Lemma C6_huge_hint_escapes :
  (Z.of_nat 1 <= max_retries limiter3)%Z /\
  (forall j, (j < 1)%nat ->
     exists e, op env_huge_then_ok j = Err e /\ is_rate_limit_error e = true) /\
  op env_huge_then_ok 1 = Ok 7%nat /\
  fst (call_with_retry limiter3 env_huge_then_ok fresh_world) = Escaped OverflowError /\
  calls (snd (call_with_retry limiter3 env_huge_then_ok fresh_world)) = 1%nat.
Proof.
  split; [vm_compute; discriminate|].
  split.
  { intros j Hj. exists (mkExc j huge_hint_message). split.
    - cbn [op env_huge_then_ok]. rewrite (proj2 (Nat.ltb_lt j 1) Hj). reflexivity.
    - vm_compute. reflexivity. }
  split; [reflexivity|]. split; vm_compute; reflexivity.
Qed.

(** C6 (amended).  When attempts [0 .. i-1] raise rate-limit errors,
    attempt [i <= max_retries] succeeds, and the backoffs after the
    attempts [0 .. i-1] are in the regime [backoff_safe], the result of
    attempt [i] is returned after exactly [i + 1] invocations. *)
Theorem call_with_retry_success {V : Type} (self : RateLimiter) (env : Env V)
    (w : World) (i : nat) (v : V)
    (Hi : (Z.of_nat i <= max_retries self)%Z)
    (Hfail : forall j, (j < i)%nat -> exists e, op env j = Err e /\ is_rate_limit_error e = true)
    (Hv : op env i = Ok v)
    (Hsafe : backoff_safe self env w i) :
  fst (call_with_retry self env w) = Returned v /\
  calls (snd (call_with_retry self env w)) = (calls w + i + 1)%nat.
Proof.
  pose proof (backoff_safe_step _ _ _ _ Hsafe) as Hs.
  destruct Hsafe as (_ & _ & _ & _ & Hc & Hdur & _).
  destruct (call_with_retry self env w) as [r w'] eqn:E. unfold call_with_retry in E.
  destruct (retry_loop_success self env (Z.to_nat (max_retries self + 1)) 0 i v None w w' r
              ltac:(lia) ltac:(lia) ltac:(lia) (fun j Hj => Hfail j ltac:(lia)) Hs Hdur Hc
              Hv E) as [-> Hc'].
  split; [reflexivity | cbn [snd]; lia].
Qed.

(** C7.  When [call_with_retry] raises from inside the loop (a fatal
    error or the last permitted attempt), the exception is the one the
    last invocation of the operation raised. *)
Theorem call_with_retry_raises_last_error {V : Type} (self : RateLimiter) (env : Env V)
    (w w' : World) (e : Exc)
    (H : call_with_retry self env w = (Raised e, w')) :
  (calls w < calls w')%nat /\ op env (calls w' - calls w - 1) = Err e.
Proof.
  unfold call_with_retry in H. apply retry_loop_raised in H. exact H.
Qed.

(** C8.  The pacing wait ends at [max(now, last_request_time + 0.2)],
    i.e. it lasts exactly [0.2 - elapsed] when [elapsed < 0.2]; hence,
    from a consistent executor and with operations taking non-negative
    time, every attempt start stays at least 0.2 s after the previous one,
    also across calls separated by idle time. *)
Theorem call_with_retry_pacing {V : Type} (self : RateLimiter) (env : Env V) (w : World)
    (Hdur : forall i, 0 <= dur env i) (Hw : pacing_inv w) :
  (forall current_time last,
     paced current_time last == Qmax current_time (last + min_interval)) /\
  pacing_inv (snd (call_with_retry self env w)) /\
  (forall idle, 0 <= idle -> pacing_inv (sleep (snd (call_with_retry self env w)) idle)).
Proof.
  assert (Hinv : pacing_inv (snd (call_with_retry self env w)))
    by (apply retry_loop_pacing; assumption).
  split; [exact paced_spec|]. split; [exact Hinv|].
  intros idle Hidle. apply pacing_inv_sleep; assumption.
Qed.

(** C9.  A call making [n] attempts (invocations) adds [n] to
    [request_count] and stores [n] new values in [last_request_time], the
    last of which is the field's final value; the count never
    decreases. *)
Theorem call_with_retry_request_count {V : Type} (self : RateLimiter) (env : Env V)
    (w : World) :
  let w' := snd (call_with_retry self env w) in
  (calls w <= calls w')%nat /\
  request_count w' = (request_count w + Z.of_nat (calls w' - calls w))%Z /\
  length (starts w') = (length (starts w) + (calls w' - calls w))%nat /\
  ((calls w < calls w')%nat -> hd_error (starts w') = Some (last_request_time w')) /\
  (request_count w <= request_count w')%Z.
Proof.
  cbv zeta. destruct (call_with_retry self env w) as [r w'] eqn:E. cbn [snd].
  unfold call_with_retry in E.
  destruct (retry_loop_counts self env _ _ _ _ _ _ E) as (H1 & H2 & H3 & _ & H5).
  repeat split; try assumption; lia.
Qed.

(** C10.  With [max_retries >= 0] the statement [raise last_exception]
    after the loop is never executed; with [max_retries < 0] it is
    executed at once with [last_exception = None], before any
    invocation. *)
Theorem call_with_retry_fallback_unreachable {V : Type} (self : RateLimiter) (env : Env V)
    (w : World) :
  ((0 <= max_retries self)%Z -> forall l, fst (call_with_retry self env w) <> RaisedLast l) /\
  ((max_retries self < 0)%Z -> call_with_retry self env w = (RaisedLast None, w)).
Proof.
  split.
  - intros Hk l. unfold call_with_retry. apply retry_loop_in_loop; lia.
  - intros Hk. unfold call_with_retry.
    replace (Z.to_nat (max_retries self + 1)) with 0%nat by lia. reflexivity.
Qed.

(** ** Witnesses: the theorems applied at concrete inputs *)

(** The regime [backoff_safe] for the concrete limiters and
    environments. *)
Ltac solve_backoff_safe :=
  unfold backoff_safe;
  refine (conj _ (conj _ (conj _ (conj _ (conj _ (conj _ (conj _ _)))))));
  [ apply Nat.leb_le; vm_compute; reflexivity
  | apply pow_bound_all; vm_compute; reflexivity
  | intros ? _; cbn; lra
  | let Hop := fresh "Hop" in
    intros ? ? _ Hop;
    cbv beta iota delta [op env_recovers env_rate_limited env_fatal_at_2] in Hop;
    repeat match type of Hop with context [if ?b then _ else _] => destruct b end;
    try discriminate; injection Hop as <-; vm_compute; reflexivity
  | cbn; lra
  | intros ?; cbn; lra
  | vm_compute; reflexivity
  | apply os_9e9_ok; vm_compute; discriminate ].

Lemma calculate_delay_reset_hint_witness :
  let msg := "HTTP 429: {" ++ reset_hint Hint.squote " " Hint.squote "1700000005000"
                                         Hint.squote "}" in
  let d := inject_Z (decimal_value "1700000005000" - 1700000000000) / 1000 in
  extract_retry_after msg 1700000000000 = PyOk (Some (Fin d)) /\
  calculate_delay limiter3 0 msg 1700000000000 (1 # 2) =
    PyOk (Fin (Qmax (Qmin (d + d * (1 # 4) * ((1 # 2) * 2 - 1)) (max_delay limiter3))
                    (1 # 10))).
Proof.
  refine (proj1 (calculate_delay_reset_hint limiter3 0 "HTTP 429: {" " " "1700000005000" "}"
                   Hint.squote Hint.squote Hint.squote 1700000000000 (1 # 2)
                   eq_refl eq_refl eq_refl eq_refl _ eq_refl _ _ _) _ _).
  - discriminate.
  - apply no_earlier_match_ok. vm_compute. reflexivity.
  - vm_compute. reflexivity.
  - lra.
  - apply Nat.leb_le. vm_compute. reflexivity.
  - apply Z.ltb_lt. vm_compute. reflexivity.
Defined.

Lemma is_rate_limit_error_spec_witness :
  exists keyword,
    In keyword ["rate limit"; "429"; "too many requests"; "quota exceeded"] /\
    exists pre post, Str.lower "Error: Too Many Requests" = pre ++ keyword ++ post.
Proof.
  apply (proj1 (proj1 (is_rate_limit_error_spec (mkExc 0 "Error: Too Many Requests")))).
  vm_compute. reflexivity.
Defined.

Lemma calculate_delay_bounds_witness :
  let d := base_delay limiter3 * inject_Z (2 ^ Z.of_nat 2) in
  let jitter := d * (1 # 4) * ((1 # 3) * 2 - 1) in
  exists delay,
    calculate_delay limiter3 2 "Rate limit exceeded" 0 (1 # 3) = PyOk (Fin delay) /\
    (Qabs (d + jitter) < flt_ovf ->
     delay = Qmax (Qmin (d + jitter) (max_delay limiter3)) (1 # 10)) /\
    (0 < base_delay limiter3 -> (3 # 4) * d <= d + jitter <= (5 # 4) * d) /\
    (1 # 10) <= delay /\
    delay <= Qmax (max_delay limiter3) (1 # 10) /\
    ((1 # 10) <= max_delay limiter3 -> delay <= max_delay limiter3).
Proof.
  apply (calculate_delay_bounds limiter3 2 "Rate limit exceeded" 0 (1 # 3)).
  - vm_compute. reflexivity.
  - lia.
  - vm_compute. reflexivity.
  - lra.
Defined.

Lemma call_with_retry_attempt_bound_witness :
  calls (snd (call_with_retry limiter3 env_rate_limited fresh_world)) =
    (calls fresh_world + Z.to_nat (max_retries limiter3) + 1)%nat /\
  exists e, op env_rate_limited (Z.to_nat (max_retries limiter3)) = Err e /\
            fst (call_with_retry limiter3 env_rate_limited fresh_world) = Raised e.
Proof.
  apply (call_with_retry_attempt_bound limiter3 env_rate_limited fresh_world).
  - vm_compute. discriminate.
  - intros i. exists (mkExc i "rate limit exceeded"). split; reflexivity.
  - solve_backoff_safe.
Defined.

Lemma call_with_retry_fast_fail_witness :
  fst (call_with_retry limiter3 env_bad_key fresh_world) = Raised (mkExc 0 "Invalid API key") /\
  calls (snd (call_with_retry limiter3 env_bad_key fresh_world)) = S (calls fresh_world).
Proof.
  apply (call_with_retry_fast_fail limiter3 env_bad_key fresh_world (mkExc 0 "Invalid API key")).
  - vm_compute. discriminate.
  - reflexivity.
  - vm_compute. reflexivity.
Defined.

Lemma call_with_retry_success_witness :
  fst (call_with_retry limiter3 env_recovers fresh_world) = Returned 42%nat /\
  calls (snd (call_with_retry limiter3 env_recovers fresh_world)) = (calls fresh_world + 3 + 1)%nat.
Proof.
  apply (call_with_retry_success limiter3 env_recovers fresh_world 3 42%nat).
  - vm_compute. discriminate.
  - intros j Hj. exists (mkExc j "429 Too Many Requests"). split; [|reflexivity].
    cbn [op env_recovers]. rewrite (proj2 (Nat.ltb_lt j 3) Hj). reflexivity.
  - reflexivity.
  - solve_backoff_safe.
Defined.

Lemma call_with_retry_raises_last_error_witness :
  let res := call_with_retry limiter3 env_bad_key fresh_world in
  (calls fresh_world < calls (snd res))%nat /\
  op env_bad_key (calls (snd res) - calls fresh_world - 1) = Err (mkExc 0 "Invalid API key").
Proof.
  apply (call_with_retry_raises_last_error limiter3 env_bad_key fresh_world
           (snd (call_with_retry limiter3 env_bad_key fresh_world)) (mkExc 0 "Invalid API key")).
  vm_compute. reflexivity.
Defined.

Lemma call_with_retry_pacing_witness :
  (forall current_time last,
     paced current_time last == Qmax current_time (last + min_interval)) /\
  pacing_inv (snd (call_with_retry limiter3 env_recovers (mkWorld 0 0 0 0 []))) /\
  (forall idle, 0 <= idle ->
     pacing_inv (sleep (snd (call_with_retry limiter3 env_recovers (mkWorld 0 0 0 0 []))) idle)).
Proof.
  apply (call_with_retry_pacing limiter3 env_recovers (mkWorld 0 0 0 0 [])).
  - intros i. cbn [dur env_recovers]. lra.
  - unfold pacing_inv. cbn. split; [lra | split; exact I].
Defined.

Lemma call_with_retry_fallback_unreachable_witness :
  (forall l, fst (call_with_retry limiter3 env_recovers fresh_world) <> RaisedLast l) /\
  call_with_retry (mkRateLimiter (-1) 1 60) env_recovers fresh_world =
    (RaisedLast None, fresh_world).
Proof.
  split.
  - apply (proj1 (call_with_retry_fallback_unreachable limiter3 env_recovers fresh_world)).
    vm_compute. discriminate.
  - apply (proj2 (call_with_retry_fallback_unreachable (mkRateLimiter (-1) 1 60)
                    env_recovers fresh_world)).
    reflexivity.
Defined.

(** Scenario A of the spec: three 429 failures, then success on the fourth
    attempt, with backoff waits of 1, 2 and 4 seconds (jitter draw 0.5). *)
Example scenario_A :
  fst (call_with_retry limiter3 env_recovers fresh_world) = Returned 42%nat /\
  calls (snd (call_with_retry limiter3 env_recovers fresh_world)) = 4%nat.
Proof. vm_compute. split; reflexivity. Qed.

(** ** Further properties of the backoff and the classification *)

Lemma lower_app (s t : string) : Str.lower (s ++ t) = Str.lower s ++ Str.lower t.
Proof. induction s as [|c s IH]; simpl; [reflexivity | rewrite IH; reflexivity]. Qed.

Lemma append_assoc_str (s t u : string) : s ++ (t ++ u) = (s ++ t) ++ u.
Proof. induction s as [|c s IH]; simpl; [reflexivity | rewrite IH; reflexivity]. Qed.

(** [_calculate_delay] raises nothing but the [OverflowError] of an
    int-to-float conversion.  With a jitter draw in [[0, 1]], every value
    it returns is a delay between 0.1 and [max(max_delay, 0.1)], or [nan]
    when [base_delay * 2^attempt] overflows to infinity: the server hint
    alone never produces [nan], and never a wait longer than
    [max(max_delay, 0.1)]. *)
Theorem calculate_delay_range (self : RateLimiter) (attempt : nat) (msg : string)
    (now_ms : Z) (r : Q) (Hr : 0 <= r <= 1) :
  (forall x, calculate_delay self attempt msg now_ms r = PyRaise x -> x = OverflowError) /\
  (forall v, calculate_delay self attempt msg now_ms r = PyOk v ->
     (exists d, v = Fin d /\ 1 # 10 <= d <= Qmax (max_delay self) (1 # 10)) \/
     (v = NaN /\ flt_ovf <= Qabs (base_delay self) * inject_Z (2 ^ Z.of_nat attempt))).
Proof.
  split.
  - intros x H. unfold calculate_delay in H.
    destruct (extract_retry_after msg now_ms) as [ra|x'] eqn:Ex; cbn [py_bind] in H.
    2: { injection H as <-. exact (extract_retry_after_raise _ _ _ Ex). }
    destruct ra as [ra|].
    + destruct (extract_retry_after_some _ _ _ Ex) as [t (_ & Ht & Ht' & ->)].
      rewrite future_delay_truthy in H by lia. cbn [py_bind] in H. discriminate.
    + destruct (int_to_float (2 ^ Z.of_nat attempt)) as [p|x'] eqn:Ei; cbn [py_bind] in H;
        [discriminate|].
      injection H as <-. exact (int_to_float_raise _ _ Ei).
  - intros v H. unfold calculate_delay in H.
    destruct (extract_retry_after msg now_ms) as [ra|x'] eqn:Ex; cbn [py_bind] in H;
      [|discriminate].
    destruct ra as [ra|].
    + destruct (extract_retry_after_some _ _ _ Ex) as [t (_ & Ht & Ht' & ->)].
      rewrite future_delay_truthy in H by lia. cbn [py_bind] in H. injection H as <-.
      pose proof (hint_seconds_range (t - now_ms) ltac:(lia) Ht') as Hrg.
      assert (Hf : forall a, Fin (inject_Z (t - now_ms) / 1000) = Fin a -> - flt_ovf < a < flt_ovf)
        by (intros a Ha; injection Ha as <-; lra).
      assert (Hn : Fin (inject_Z (t - now_ms) / 1000) <> NaN) by discriminate.
      destruct (final_cases _ (max_delay self) r Hr Hf Hn) as [Hl | [[Hi|Hi] _]];
        [left; exact Hl | discriminate | discriminate].
    + match type of H with context [py_bind (int_to_float ?z) ?f] =>
        destruct (py_bind (int_to_float z) f) as [dv|x'] eqn:Eb
      end; cbn [py_bind] in H; [|discriminate].
      injection H as <-.
      destruct (backoff_value _ _ _ Eb) as (Hf & Hn & Hinf).
      destruct (final_cases dv (max_delay self) r Hr Hf Hn) as [Hl | [Hi Hnan]];
        [left; exact Hl | right; split; [exact Hnan | apply Hinf, Hi]].
Qed.

(** A hint [_extract_retry_after] reports is [float(T - now_ms) / 1000]
    for an integer timestamp [T > now_ms] below the float range, hence at
    least 1 ms: the test [if retry_after:] never discards it. *)
Theorem extract_retry_after_positive (msg : string) (now_ms : Z) (v : pyfloat)
    (H : extract_retry_after msg now_ms = PyOk (Some v)) :
  exists reset_timestamp,
    (now_ms < reset_timestamp)%Z /\ (reset_timestamp - now_ms < flt_ovf_int)%Z /\
    v = Fin (inject_Z (reset_timestamp - now_ms) / 1000) /\
    (1 # 1000) <= inject_Z (reset_timestamp - now_ms) / 1000 /\
    truthy (Some v) = true.
Proof.
  destruct (extract_retry_after_some _ _ _ H) as [t (_ & Ht & Ht' & ->)].
  exists t. split; [exact Ht|]. split; [exact Ht'|]. split; [reflexivity|]. split.
  - unfold Qle. simpl. lia.
  - apply future_delay_truthy. lia.
Qed.

(** With no hint, a jitter draw in [[0, 1]], [base_delay >= 0] and no
    float overflow at the later attempt, the delay never decreases from
    one attempt to a later one. *)
Theorem calculate_delay_monotone (self : RateLimiter) (a b : nat) (msg : string)
    (now_ms : Z) (r : Q)
    (Hno : extract_retry_after msg now_ms = PyOk None) (Hab : (a <= b)%nat)
    (Hb : (b < 1024)%nat) (Hbase : 0 <= base_delay self)
    (Hfin : base_delay self * inject_Z (2 ^ Z.of_nat b) < flt_ovf) (Hr : 0 <= r <= 1) :
  exists da db,
    calculate_delay self a msg now_ms r = PyOk (Fin da) /\
    calculate_delay self b msg now_ms r = PyOk (Fin db) /\ da <= db.
Proof.
  assert (Hp : inject_Z (2 ^ Z.of_nat a) <= inject_Z (2 ^ Z.of_nat b))
    by (rewrite <- Zle_Qle; apply Z.pow_le_mono_r; lia).
  assert (Hd : base_delay self * inject_Z (2 ^ Z.of_nat a) <=
               base_delay self * inject_Z (2 ^ Z.of_nat b)).
  { rewrite !(Qmult_comm (base_delay self)). apply Qmult_le_compat_r; assumption. }
  assert (Ha0 : 0 <= base_delay self * inject_Z (2 ^ Z.of_nat a))
    by (apply Qmult_le_0_compat; [exact Hbase | apply inject_Z_pow_nonneg]).
  assert (Hfa : Qabs (base_delay self) * inject_Z (2 ^ Z.of_nat a) < flt_ovf)
    by (rewrite (Qabs_pos _ Hbase); lra).
  assert (Hfb : Qabs (base_delay self) * inject_Z (2 ^ Z.of_nat b) < flt_ovf)
    by (rewrite (Qabs_pos _ Hbase); lra).
  rewrite (calculate_delay_no_hint self a msg now_ms r Hno ltac:(lia) Hfa Hr),
          (calculate_delay_no_hint self b msg now_ms r Hno Hb Hfb Hr).
  set (da := base_delay self * inject_Z (2 ^ Z.of_nat a)) in *.
  set (db := base_delay self * inject_Z (2 ^ Z.of_nat b)) in *.
  assert (Hs : 0 <= da * (1 + (1 # 4) * (r * 2 - 1))) by (apply Qmult_le_0_compat; lra).
  assert (Ht : 0 <= (db - da) * (1 + (1 # 4) * (r * 2 - 1)))
    by (apply Qmult_le_0_compat; lra).
  destruct (clamp_round_mono (da + da * (1 # 4) * (r * 2 - 1)) (db + db * (1 # 4) * (r * 2 - 1))
              (max_delay self) ltac:(lra)) as [ds [dt (Es & Et & Hst)]].
  exists ds, dt. rewrite Es, Et. split; [reflexivity|]. split; [reflexivity | exact Hst].
Qed.

(** With no hint, [_calculate_delay] raises [OverflowError] from
    [2 ** attempt] once [attempt >= 1024].  Below that, a positive
    [base_delay] with [base_delay * 2^attempt] at or beyond the float
    range makes the delay [inf]; the jitter then is [inf * (r*2 - 1)], and
    the result is [nan] for a draw [r <= 0.5] ([inf * 0] or
    [inf + -inf]) and [max(max_delay, 0.1)] for a draw [r > 0.5]. *)
Theorem calculate_delay_overflow_modes (self : RateLimiter) (attempt : nat) (msg : string)
    (now_ms : Z) (r : Q) (Hno : extract_retry_after msg now_ms = PyOk None) :
  ((1024 <= attempt)%nat -> calculate_delay self attempt msg now_ms r = PyRaise OverflowError) /\
  ((attempt < 1024)%nat -> 0 < base_delay self ->
   flt_ovf <= base_delay self * inject_Z (2 ^ Z.of_nat attempt) ->
   (0 <= r <= 1 # 2 -> calculate_delay self attempt msg now_ms r = PyOk NaN) /\
   (1 # 2 < r <= 1 ->
    calculate_delay self attempt msg now_ms r = PyOk (Fin (Qmax (max_delay self) (1 # 10))))).
Proof.
  split.
  - intros Ha. unfold calculate_delay. rewrite Hno. cbn [py_bind].
    rewrite (int_to_float_overflow _ (pow2_big _ Ha)). reflexivity.
  - intros Ha Hb Hov. unfold calculate_delay. rewrite Hno. cbn [py_bind].
    rewrite (int_to_float_ok _ (pow2_small _ Ha)). cbn [py_bind].
    assert (E1 : fmul (Fin (base_delay self)) (Fin (inject_Z (2 ^ Z.of_nat attempt))) = PInf).
    { cbn [fmul]. unfold round. apply Qle_bool_iff in Hov. rewrite Hov. reflexivity. }
    assert (E2 : fmul PInf (Fin (1 # 4)) = PInf) by reflexivity.
    rewrite E1, E2.
    assert (E3 : 0 <= r <= 1 -> fsub (fmul (Fin r) (Fin 2)) (Fin 1) = Fin (r * 2 - 1)).
    { intros Hr. pose proof flt_ovf_gt_1000. cbn [fmul].
      rewrite (round_fin (r * 2)) by lra. cbn [fsub]. apply round_fin. lra. }
    split; intros Hr; rewrite E3 by lra.
    + destruct (Qeq_bool (r * 2 - 1) 0) eqn:Ez.
      * assert (E4 : fmul PInf (Fin (r * 2 - 1)) = NaN)
          by (cbn [fmul]; unfold inf_times; rewrite Ez; reflexivity).
        rewrite E4. reflexivity.
      * assert (Hneg : r * 2 - 1 <= 0) by lra.
        apply Qle_bool_iff in Hneg.
        assert (E4 : fmul PInf (Fin (r * 2 - 1)) = NInf)
          by (cbn [fmul]; unfold inf_times; rewrite Ez, Hneg; reflexivity).
        rewrite E4. reflexivity.
    + destruct (Qeq_bool (r * 2 - 1) 0) eqn:Ez; [apply Qeq_bool_eq in Ez; lra|].
      destruct (Qle_bool (r * 2 - 1) 0) eqn:Ep; [apply Qle_bool_iff in Ep; lra|].
      assert (E4 : fmul PInf (Fin (r * 2 - 1)) = PInf)
        by (cbn [fmul]; unfold inf_times; rewrite Ez, Ep; reflexivity).
      rewrite E4, <- py_max_fin. reflexivity.
Qed.

(** An error whose message embeds the message of a rate-limit error
    (for instance a wrapping exception) is a rate-limit error too. *)
Theorem is_rate_limit_error_embedded (e : Exc) (pre post : string) (i : nat)
    (H : is_rate_limit_error e = true) :
  is_rate_limit_error (mkExc i (pre ++ exc_msg e ++ post)) = true.
Proof.
  unfold is_rate_limit_error in *. cbn [exc_msg].
  apply existsb_exists in H as [k [Hin Hk]].
  apply existsb_exists. exists k. split; [exact Hin|].
  apply contains_spec in Hk as [p [q Hpq]].
  apply contains_spec. rewrite !lower_app, Hpq.
  exists (Str.lower pre ++ p), (q ++ Str.lower post).
  rewrite <- !append_assoc_str. reflexivity.
Qed.

(** ** Further properties of the attempt loop *)

Section LoopFacts.
Context {V : Type} (self : RateLimiter) (env : Env V).

(** The [except] clause after a rate-limit error that is not on the last
    attempt: a backoff that returns, or an exception that escapes. *)
Ltac bk_step H :=
  lazymatch type of H with
  | context [backoff self env ?att ?ee ?ww] =>
      let Hbk := fresh "Hbk" in
      destruct (backoff self env att ee ww) as [w3|x] eqn:Hbk;
      [ let dd := fresh "dd" in let Hdd := fresh "Hdd" in
        destruct (backoff_ok _ _ _ _ _ _ Hbk) as [dd [-> Hdd]]
      | ]
  end.

Lemma retry_loop_calls_bound (n a : nat) (le : option Exc) (w w' : World) (r : CallResult V) :
  retry_loop self env n a le w = (r, w') ->
  (calls w <= calls w' <= calls w + n)%nat /\ ((0 < n)%nat -> (calls w < calls w')%nat).
Proof.
  revert a le w w' r. induction n as [|n IH]; intros a le w w' r H.
  - cbn [retry_loop] in H. injection H as <- <-. lia.
  - cbn [retry_loop] in H.
    destruct (op env a) as [v0|e0].
    { injection H as <- <-. cbn [calls]. lia. }
    destruct (negb (is_rate_limit_error e0)).
    { injection H as <- <-. cbn [calls]. lia. }
    destruct (Z.of_nat a =? max_retries self)%Z.
    { injection H as <- <-. cbn [calls]. lia. }
    bk_step H.
    + destruct (IH _ _ _ _ _ H) as [Hb _]. cbn [calls sleep] in Hb. lia.
    + injection H as <- <-. cbn [calls]. lia.
Qed.

Lemma retry_loop_returned (n a : nat) (le : option Exc) (w w' : World) (v : V) :
  retry_loop self env n a le w = (Returned v, w') ->
  (calls w < calls w')%nat /\
  op env (a + (calls w' - calls w) - 1) = Ok v /\
  forall j, (a <= j < a + (calls w' - calls w) - 1)%nat ->
    exists e, op env j = Err e /\ is_rate_limit_error e = true.
Proof.
  revert a le w w'. induction n as [|n IH]; intros a le w w' H; [discriminate|].
  cbn [retry_loop] in H.
  destruct (op env a) as [v0|e0] eqn:Hop.
  { injection H as -> <-. cbn [calls]. split; [lia|].
    replace (a + (S (calls w) - calls w) - 1)%nat with a by lia.
    split; [exact Hop | intros j Hj; lia]. }
  destruct (negb (is_rate_limit_error e0)) eqn:Hrl; [discriminate|].
  destruct (Z.of_nat a =? max_retries self)%Z; [discriminate|].
  bk_step H; [|discriminate].
  destruct (IH _ _ _ _ H) as [Hlt [Hv Hprev]]. cbn [calls sleep] in Hlt, Hv, Hprev.
  split; [lia|].
  replace (a + (calls w' - calls w) - 1)%nat with (S a + (calls w' - S (calls w)) - 1)%nat
    by lia.
  split; [exact Hv|].
  intros j Hj. destruct (Nat.eq_dec j a) as [-> | Hne].
  - exists e0. split; [exact Hop | destruct (is_rate_limit_error e0); [reflexivity | discriminate]].
  - apply Hprev. lia.
Qed.

Lemma retry_loop_raised_reason (n a : nat) (le : option Exc) (w w' : World) (e : Exc) :
  retry_loop self env n a le w = (Raised e, w') ->
  (forall j, (a <= j < a + (calls w' - calls w) - 1)%nat ->
     exists e', op env j = Err e' /\ is_rate_limit_error e' = true) /\
  (is_rate_limit_error e = false \/
   Z.of_nat (a + (calls w' - calls w) - 1) = max_retries self).
Proof.
  revert a le w w'. induction n as [|n IH]; intros a le w w' H; [discriminate|].
  cbn [retry_loop] in H.
  destruct (op env a) as [v0|e0] eqn:Hop; [discriminate|].
  destruct (negb (is_rate_limit_error e0)) eqn:Hrl.
  { injection H as -> <-. cbn [calls]. split; [intros j Hj; lia|].
    left. destruct (is_rate_limit_error e); [discriminate | reflexivity]. }
  destruct (Z.of_nat a =? max_retries self)%Z eqn:Hk.
  { injection H as -> <-. cbn [calls]. split; [intros j Hj; lia|].
    right. apply Z.eqb_eq in Hk. rewrite <- Hk. f_equal. lia. }
  bk_step H; [|discriminate].
  pose proof (retry_loop_calls_bound _ _ _ _ _ _ H) as [Hb _].
  destruct (IH _ _ _ _ H) as [Hprev Hwhy]. cbn [calls sleep] in Hb, Hprev, Hwhy.
  replace (a + (calls w' - calls w) - 1)%nat with (S a + (calls w' - S (calls w)) - 1)%nat
    by lia.
  split; [|exact Hwhy].
  intros j Hj. destruct (Nat.eq_dec j a) as [-> | Hne].
  - exists e0. split; [exact Hop | destruct (is_rate_limit_error e0); [reflexivity | discriminate]].
  - apply Hprev. lia.
Qed.

(** An exception escaping from the [except] clause: the last invocation
    raised a rate-limit error on an attempt before the last one, and the
    executor's clock stops right after that invocation. *)
Lemma retry_loop_escaped (n a : nat) (le : option Exc) (w w' : World) (ex : PyError) :
  (Z.of_nat (a + n) = max_retries self + 1)%Z ->
  retry_loop self env n a le w = (Escaped ex, w') ->
  (calls w < calls w')%nat /\
  (Z.of_nat (a + (calls w' - calls w)) <= max_retries self)%Z /\
  exists e, op env (a + (calls w' - calls w) - 1) = Err e /\ is_rate_limit_error e = true /\
    (forall j, (a <= j < a + (calls w' - calls w) - 1)%nat ->
       exists e', op env j = Err e' /\ is_rate_limit_error e' = true) /\
    clock w' = last_request_time w' + dur env (a + (calls w' - calls w) - 1).
Proof.
  revert a le w w'. induction n as [|n IH]; intros a le w w' Hn H; [discriminate|].
  cbn [retry_loop] in H.
  destruct (op env a) as [v0|e0] eqn:Hop; [discriminate|].
  destruct (negb (is_rate_limit_error e0)) eqn:Hrl; [discriminate|].
  destruct (Z.of_nat a =? max_retries self)%Z eqn:Hk; [discriminate|].
  apply Z.eqb_neq in Hk.
  assert (Hrl' : is_rate_limit_error e0 = true)
    by (destruct (is_rate_limit_error e0); [reflexivity | discriminate]).
  bk_step H.
  - destruct (IH (S a) _ _ _ ltac:(lia) H) as (Hlt & Hle & e & He & Hrle & Hprev & Hclk).
    cbn [calls sleep] in Hlt, Hle, He, Hprev, Hclk.
    split; [lia|].
    replace (a + (calls w' - calls w))%nat with (S a + (calls w' - S (calls w)))%nat by lia.
    split; [exact Hle|]. exists e. split; [exact He|]. split; [exact Hrle|].
    split; [|exact Hclk].
    intros j Hj. destruct (Nat.eq_dec j a) as [-> | Hne].
    + exists e0. split; assumption.
    + apply Hprev. lia.
  - injection H as <- <-. cbn [calls clock last_request_time].
    replace (a + (S (calls w) - calls w))%nat with (S a) by lia.
    replace (S a - 1)%nat with a by lia.
    split; [lia|]. split; [lia|]. exists e0. split; [exact Hop|]. split; [exact Hrl'|].
    split; [intros j Hj; lia | reflexivity].
Qed.

Lemma retry_loop_fatal (n a i : nat) (e : Exc) (le : option Exc) (w w' : World)
    (r : CallResult V) :
  (Z.of_nat (a + n) = max_retries self + 1)%Z -> (a <= i)%nat -> (i < a + n)%nat ->
  (forall j, (a <= j < i)%nat ->
     exists e', op env j = Err e' /\ is_rate_limit_error e' = true) ->
  (forall j e' w2, (j < i)%nat -> op env j = Err e' -> 0 <= clock w2 ->
     exists w3, backoff self env j e' w2 = PyOk w3) ->
  (forall j, 0 <= dur env j) -> 0 <= clock w ->
  op env i = Err e -> is_rate_limit_error e = false ->
  retry_loop self env n a le w = (r, w') ->
  r = Raised e /\ calls w' = (calls w + (i - a) + 1)%nat.
Proof.
  revert a le w w' r.
  induction n as [|n IH]; intros a le w w' r Hn Hai Hin Hfail Hsafe Hdur Hc He Hrl H; [lia|].
  pose proof (paced_ge (clock w) (last_request_time w)) as Hp. pose proof (Hdur a) as Hd.
  cbn [retry_loop] in H.
  destruct (Nat.eq_dec a i) as [<- | Hne].
  - rewrite He, Hrl in H. simpl negb in H. cbv iota in H.
    injection H as <- <-. split; [reflexivity | cbn; lia].
  - destruct (Hfail a ltac:(lia)) as [e' [Hea Hrle]].
    rewrite Hea, Hrle in H. simpl negb in H. cbv iota in H.
    destruct (Z.of_nat a =? max_retries self)%Z eqn:Hk; [apply Z.eqb_eq in Hk; lia|].
    match type of H with context [backoff self env a e' ?w2] =>
      destruct (Hsafe a e' w2 ltac:(lia) Hea ltac:(cbn [clock]; lra)) as [w3 Hw3];
      rewrite Hw3 in H; destruct (backoff_ok _ _ _ _ _ _ Hw3) as [dd [-> Hdd]]
    end.
    match type of H with retry_loop _ _ _ _ _ ?w3 = _ =>
      assert (Hc3 : 0 <= clock w3) by (cbn [sleep clock]; lra) end.
    destruct (IH (S a) _ _ _ _ ltac:(lia) ltac:(lia) ltac:(lia)
                (fun j Hj => Hfail j ltac:(lia)) Hsafe Hdur Hc3 He Hrl H) as [-> Hc'].
    split; [reflexivity | cbn in Hc'; lia].
Qed.

Lemma paced_window (current_time last : Q) :
  last <= current_time ->
  current_time <= paced current_time last <= current_time + min_interval.
Proof.
  intros H. rewrite paced_spec. split; [apply Q.le_max_l|].
  apply Q.max_lub; unfold min_interval; lra.
Qed.

Lemma inject_Z_of_nat_S (k : nat) : inject_Z (Z.of_nat (S k)) == inject_Z (Z.of_nat k) + 1.
Proof. rewrite Nat2Z.inj_succ, <- Z.add_1_r, inject_Z_plus. reflexivity. Qed.

Lemma retry_loop_elapsed (D : Q) (n a : nat) (le : option Exc) (w w' : World)
    (r : CallResult V) :
  (forall i, 0 <= dur env i <= D) ->
  (Z.of_nat (a + n) = max_retries self + 1)%Z -> (0 < n)%nat ->
  last_request_time w <= clock w ->
  retry_loop self env n a le w = (r, w') ->
  let k := inject_Z (Z.of_nat (calls w' - calls w)) in
  clock w + (k - 1) * (1 # 10) <= clock w' /\
  clock w' <= clock w + k * (min_interval + D) + (k - 1) * Qmax (max_delay self) (1 # 10).
Proof.
  revert a le w w' r. induction n as [|n IH]; intros a le w w' r Hdur Hn Hpos Hw H; [lia|].
  cbv zeta.
  pose proof (paced_window (clock w) (last_request_time w) Hw) as [Ht0 Ht1].
  pose proof (Hdur a) as [Hd0 Hd1].
  set (t := paced (clock w) (last_request_time w)) in *.
  assert (Hone : inject_Z (Z.of_nat (S (calls w) - calls w)) == 1).
  { replace (S (calls w) - calls w)%nat with 1%nat by lia. reflexivity. }
  cbn [retry_loop] in H. fold t in H.
  destruct (op env a) as [v0|e0].
  { injection H as <- <-. cbn [clock calls]. rewrite Hone. unfold min_interval in *. lra. }
  destruct (negb (is_rate_limit_error e0)).
  { injection H as <- <-. cbn [clock calls]. rewrite Hone. unfold min_interval in *. lra. }
  destruct (Z.of_nat a =? max_retries self)%Z eqn:Hk.
  { injection H as <- <-. cbn [clock calls]. rewrite Hone. unfold min_interval in *. lra. }
  apply Z.eqb_neq in Hk.
  bk_step H.
  2: { injection H as <- <-. cbn [clock calls]. rewrite Hone. unfold min_interval in *. lra. }
  pose proof (retry_loop_calls_bound _ _ _ _ _ _ H) as [Hb _]. cbn [calls sleep] in Hb.
  apply IH in H as IH';
    [| exact Hdur | lia | lia | cbn [sleep clock last_request_time]; lra].
  cbv zeta in IH'. cbn [sleep clock calls] in IH'.
  assert (Hk' : (calls w' - calls w = S (calls w' - S (calls w)))%nat) by lia.
  rewrite Hk', !inject_Z_of_nat_S.
  set (kq := inject_Z (Z.of_nat (calls w' - S (calls w)))) in *.
  unfold min_interval in *. lra.
Qed.

Lemma retry_loop_starts_suffix (n a : nat) (le : option Exc) (w w' : World)
    (r : CallResult V) :
  retry_loop self env n a le w = (r, w') -> exists l, starts w' = (l ++ starts w)%list.
Proof.
  revert a le w w' r. induction n as [|n IH]; intros a le w w' r H.
  - cbn [retry_loop] in H. injection H as <- <-. exists []. reflexivity.
  - cbn [retry_loop] in H.
    destruct (op env a) as [v0|e0].
    { injection H as <- <-. eexists [_]. reflexivity. }
    destruct (negb (is_rate_limit_error e0)).
    { injection H as <- <-. eexists [_]. reflexivity. }
    destruct (Z.of_nat a =? max_retries self)%Z.
    { injection H as <- <-. eexists [_]. reflexivity. }
    bk_step H.
    + destruct (IH _ _ _ _ _ H) as [l Hl]. cbn [sleep starts] in Hl.
      exists (l ++ [paced (clock w) (last_request_time w)])%list.
      rewrite Hl, <- app_assoc. reflexivity.
    + injection H as <- <-. eexists [_]. reflexivity.
Qed.

Lemma retry_loop_first_start (n a : nat) (le : option Exc) (w w' : World)
    (r : CallResult V) :
  retry_loop self env (S n) a le w = (r, w') ->
  exists l, starts w' = (l ++ paced (clock w) (last_request_time w) :: starts w)%list.
Proof.
  intros H. cbn [retry_loop] in H.
  destruct (op env a) as [v0|e0].
  { injection H as <- <-. exists []. reflexivity. }
  destruct (negb (is_rate_limit_error e0)).
  { injection H as <- <-. exists []. reflexivity. }
  destruct (Z.of_nat a =? max_retries self)%Z.
  { injection H as <- <-. exists []. reflexivity. }
  bk_step H.
  - destruct (retry_loop_starts_suffix _ _ _ _ _ _ H) as [l Hl]. exists l. exact Hl.
  - injection H as <- <-. exists []. reflexivity.
Qed.

End LoopFacts.

(** Whatever the operation does, [call_with_retry] invokes it at most
    [max_retries + 1] times, and at least once when [max_retries >= 0]. *)
Theorem call_with_retry_invocations_bounded {V : Type} (self : RateLimiter) (env : Env V)
    (w : World) :
  let n := (calls (snd (call_with_retry self env w)) - calls w)%nat in
  (n <= Z.to_nat (max_retries self + 1))%nat /\
  ((0 <= max_retries self)%Z -> (1 <= n)%nat).
Proof.
  cbv zeta. destruct (call_with_retry self env w) as [r w'] eqn:E. cbn [snd].
  unfold call_with_retry in E.
  destruct (retry_loop_calls_bound self env _ _ _ _ _ _ E) as [Hb Hpos].
  split; [lia|]. intros Hk. specialize (Hpos ltac:(lia)). lia.
Qed.

(** When [call_with_retry] returns a value, it is the result of the last
    invocation, and every earlier invocation raised a rate-limit error. *)
Theorem call_with_retry_returned_inv {V : Type} (self : RateLimiter) (env : Env V)
    (w w' : World) (v : V)
    (H : call_with_retry self env w = (Returned v, w')) :
  let n := (calls w' - calls w)%nat in
  (1 <= n)%nat /\ op env (n - 1) = Ok v /\
  forall j, (j < n - 1)%nat -> exists e, op env j = Err e /\ is_rate_limit_error e = true.
Proof.
  unfold call_with_retry in H. apply retry_loop_returned in H as [Hlt [Hv Hprev]].
  cbv zeta. split; [lia|]. split; [exact Hv|].
  intros j Hj. apply Hprev. lia.
Qed.

(** When [call_with_retry] raises inside the loop after [n] invocations,
    the error is the one the [n]-th invocation raised, the first [n - 1]
    invocations raised rate-limit errors, and the raised error is either
    not a rate-limit error or the [n = max_retries + 1]-th one. *)
Theorem call_with_retry_raised_inv {V : Type} (self : RateLimiter) (env : Env V)
    (w w' : World) (e : Exc)
    (H : call_with_retry self env w = (Raised e, w')) :
  let n := (calls w' - calls w)%nat in
  (1 <= n)%nat /\ op env (n - 1) = Err e /\
  (forall j, (j < n - 1)%nat -> exists e', op env j = Err e' /\ is_rate_limit_error e' = true) /\
  (is_rate_limit_error e = false \/ Z.of_nat n = (max_retries self + 1)%Z).
Proof.
  unfold call_with_retry in H.
  pose proof (retry_loop_raised self env _ _ _ _ _ _ H) as [Hlt Hop].
  rewrite Nat.add_0_l in Hop.
  apply retry_loop_raised_reason in H as [Hprev Hwhy].
  cbv zeta. split; [lia|]. split; [exact Hop|]. split.
  - intros j Hj. apply Hprev. lia.
  - destruct Hwhy as [Hrl | Hk]; [left; exact Hrl | right; lia].
Qed.

(** When an exception escapes from the [except] clause (from
    [_calculate_delay] or [time.sleep]) after [n] invocations, the [n]-th
    invocation raised a rate-limit error on an attempt before the last
    one ([n <= max_retries]), the earlier invocations raised rate-limit
    errors too, and the clock stands right after the [n]-th
    invocation. *)
Theorem call_with_retry_escaped_inv {V : Type} (self : RateLimiter) (env : Env V)
    (w w' : World) (x : PyError)
    (H : call_with_retry self env w = (Escaped x, w')) :
  let n := (calls w' - calls w)%nat in
  (1 <= n)%nat /\ (Z.of_nat n <= max_retries self)%Z /\
  exists e, op env (n - 1) = Err e /\ is_rate_limit_error e = true /\
    (forall j, (j < n - 1)%nat -> exists e', op env j = Err e' /\ is_rate_limit_error e' = true) /\
    clock w' = last_request_time w' + dur env (n - 1).
Proof.
  unfold call_with_retry in H.
  destruct (Z.ltb_spec (max_retries self) 0) as [Hneg|Hk].
  { replace (Z.to_nat (max_retries self + 1)) with 0%nat in H by lia. discriminate. }
  apply retry_loop_escaped in H; [|lia].
  destruct H as (Hlt & Hle & e & He & Hrle & Hprev & Hclk).
  rewrite Nat.add_0_l in He, Hclk.
  cbv zeta. split; [lia|]. split; [lia|]. exists e.
  split; [exact He|]. split; [exact Hrle|]. split; [|exact Hclk].
  intros j Hj. apply Hprev. lia.
Qed.

(** A non-rate-limit error on attempt [i <= max_retries], after
    rate-limit errors on attempts [0 .. i-1] whose backoffs are in the
    regime [backoff_safe], is raised at once after [i + 1]
    invocations. *)
Theorem call_with_retry_fatal_at {V : Type} (self : RateLimiter) (env : Env V)
    (w : World) (i : nat) (e : Exc)
    (Hi : (Z.of_nat i <= max_retries self)%Z)
    (Hfail : forall j, (j < i)%nat -> exists e', op env j = Err e' /\ is_rate_limit_error e' = true)
    (He : op env i = Err e) (Hrl : is_rate_limit_error e = false)
    (Hsafe : backoff_safe self env w i) :
  fst (call_with_retry self env w) = Raised e /\
  calls (snd (call_with_retry self env w)) = (calls w + i + 1)%nat.
Proof.
  pose proof (backoff_safe_step _ _ _ _ Hsafe) as Hs.
  destruct Hsafe as (_ & _ & _ & _ & Hc & Hdur & _).
  destruct (call_with_retry self env w) as [r w'] eqn:E. unfold call_with_retry in E.
  destruct (retry_loop_fatal self env (Z.to_nat (max_retries self + 1)) 0 i e None w w' r
              ltac:(lia) ltac:(lia) ltac:(lia) (fun j Hj => Hfail j ltac:(lia)) Hs Hdur Hc
              He Hrl E)
    as [-> Hc'].
  split; [reflexivity | cbn [snd]; lia].
Qed.

(** Time spent in one call making [n] invocations, when
    [last_request_time <= clock] at entry and every operation takes
    between 0 and [D] seconds: at least [(n - 1) * 0.1] (the backoff
    floor) and at most [n * (0.2 + D) + (n - 1) * max(max_delay, 0.1)]
    (pacing, operation, capped backoff). *)
Theorem call_with_retry_elapsed {V : Type} (self : RateLimiter) (env : Env V)
    (w : World) (D : Q)
    (Hdur : forall i, 0 <= dur env i <= D)
    (Hw : last_request_time w <= clock w)
    (Hk : (0 <= max_retries self)%Z) :
  let w' := snd (call_with_retry self env w) in
  let k := inject_Z (Z.of_nat (calls w' - calls w)) in
  clock w + (k - 1) * (1 # 10) <= clock w' /\
  clock w' <= clock w + k * (min_interval + D) + (k - 1) * Qmax (max_delay self) (1 # 10).
Proof.
  cbv zeta. destruct (call_with_retry self env w) as [r w'] eqn:E. cbn [snd].
  unfold call_with_retry in E.
  exact (retry_loop_elapsed self env D (Z.to_nat (max_retries self + 1)) 0 None w w' r
           Hdur ltac:(lia) ltac:(lia) Hw E).
Qed.

(** [set_global_rate_limits] installs a fresh executor with the given
    parameters: the next call through [get_rate_limiter] counts its
    requests from 0, and its first attempt starts at [max(now, 0.2)],
    whatever attempts the replaced executor made just before. *)
Theorem set_global_rate_limits_fresh {V : Type} (g : Globals) (mr : Z) (bd md : Q)
    (env : Env V) (Hk : (0 <= mr)%Z) :
  let g' := set_global_rate_limits g mr bd md in
  let w' := snd (call_with_retry (get_rate_limiter g') env (default_state g')) in
  get_rate_limiter g' = mkRateLimiter mr bd md /\
  request_count w' = Z.of_nat (calls w' - calls (default_state g)) /\
  exists l t, starts w' = (l ++ [t])%list /\ t == Qmax (clock (default_state g)) min_interval.
Proof.
  cbv zeta. unfold set_global_rate_limits, rate_limiter_init, get_rate_limiter.
  cbn [default_rate_limiter default_state].
  split; [reflexivity|].
  set (w0 := mkWorld (clock (default_state g)) 0 0 (calls (default_state g)) []).
  destruct (call_with_retry (mkRateLimiter mr bd md) env w0) as [r w'] eqn:E. cbn [snd].
  pose proof (retry_loop_counts (mkRateLimiter mr bd md) env _ _ _ _ _ _ E) as (_ & Hrc & _).
  split; [exact Hrc|].
  unfold call_with_retry in E. cbn [max_retries] in E.
  replace (Z.to_nat (mr + 1)) with (S (Z.to_nat mr)) in E by lia.
  destruct (retry_loop_first_start _ _ _ _ _ _ _ _ E) as [l Hl].
  exists l, (paced (clock w0) 0). split; [exact Hl|].
  rewrite paced_spec. reflexivity.
Qed.

(** ** Witnesses of the call-level and module-level properties *)

Lemma calculate_delay_range_witness :
  (forall x, calculate_delay limiter_huge 1 "Rate limit exceeded" 0 (1 # 4) = PyRaise x ->
             x = OverflowError) /\
  (forall v, calculate_delay limiter_huge 1 "Rate limit exceeded" 0 (1 # 4) = PyOk v ->
     (exists d, v = Fin d /\ 1 # 10 <= d <= Qmax (max_delay limiter_huge) (1 # 10)) \/
     (v = NaN /\
      flt_ovf <= Qabs (base_delay limiter_huge) * inject_Z (2 ^ Z.of_nat 1))).
Proof.
  apply (calculate_delay_range limiter_huge 1 "Rate limit exceeded" 0 (1 # 4)). lra.
Defined.

Lemma extract_retry_after_positive_witness :
  exists reset_timestamp,
    (1700000000000 < reset_timestamp)%Z /\ (reset_timestamp - 1700000000000 < flt_ovf_int)%Z /\
    Fin (5000 # 1000) = Fin (inject_Z (reset_timestamp - 1700000000000) / 1000) /\
    (1 # 1000) <= inject_Z (reset_timestamp - 1700000000000) / 1000 /\
    truthy (Some (Fin (5000 # 1000))) = true.
Proof.
  apply (extract_retry_after_positive
           ("HTTP 429: {" ++ reset_hint Hint.squote " " Hint.squote "1700000005000"
                              Hint.squote "}") 1700000000000 (Fin (5000 # 1000))).
  vm_compute. reflexivity.
Defined.

Lemma calculate_delay_monotone_witness :
  exists da db,
    calculate_delay limiter3 1 "Rate limit exceeded" 0 (1 # 2) = PyOk (Fin da) /\
    calculate_delay limiter3 3 "Rate limit exceeded" 0 (1 # 2) = PyOk (Fin db) /\ da <= db.
Proof.
  apply (calculate_delay_monotone limiter3 1 3 "Rate limit exceeded" 0 (1 # 2)).
  - vm_compute. reflexivity.
  - lia.
  - lia.
  - unfold limiter3. cbn [base_delay]. lra.
  - vm_compute. reflexivity.
  - lra.
Defined.

Lemma calculate_delay_overflow_modes_witness :
  calculate_delay limiter3 1024 "Rate limit exceeded" 0 (1 # 2) = PyRaise OverflowError /\
  calculate_delay limiter_huge 1 "Rate limit exceeded" 0 (1 # 4) = PyOk NaN /\
  calculate_delay limiter_huge 1 "Rate limit exceeded" 0 (3 # 4) =
    PyOk (Fin (Qmax (max_delay limiter_huge) (1 # 10))).
Proof.
  split; [|split].
  - refine (proj1 (calculate_delay_overflow_modes limiter3 1024 "Rate limit exceeded" 0 (1 # 2)
                     _) _).
    + vm_compute. reflexivity.
    + lia.
  - refine (proj1 (proj2 (calculate_delay_overflow_modes limiter_huge 1 "Rate limit exceeded" 0
                            (1 # 4) _) _ _ _) _).
    + vm_compute. reflexivity.
    + lia.
    + vm_compute. reflexivity.
    + vm_compute. discriminate.
    + lra.
  - refine (proj2 (proj2 (calculate_delay_overflow_modes limiter_huge 1 "Rate limit exceeded" 0
                            (3 # 4) _) _ _ _) _).
    + vm_compute. reflexivity.
    + lia.
    + vm_compute. reflexivity.
    + vm_compute. discriminate.
    + lra.
Defined.

Lemma is_rate_limit_error_embedded_witness :
  is_rate_limit_error (mkExc 1 ("Wrapped: " ++ "429 Too Many Requests" ++ " (retry later)")) = true.
Proof.
  apply (is_rate_limit_error_embedded (mkExc 0 "429 Too Many Requests") "Wrapped: "
           " (retry later)" 1).
  vm_compute. reflexivity.
Defined.

Lemma call_with_retry_invocations_bounded_witness :
  let n := (calls (snd (call_with_retry limiter3 env_rate_limited fresh_world)) -
            calls fresh_world)%nat in
  (n <= Z.to_nat (max_retries limiter3 + 1))%nat /\
  ((0 <= max_retries limiter3)%Z -> (1 <= n)%nat).
Proof.
  apply (call_with_retry_invocations_bounded limiter3 env_rate_limited fresh_world).
Defined.

Lemma call_with_retry_returned_inv_witness :
  let w' := snd (call_with_retry limiter3 env_recovers fresh_world) in
  let n := (calls w' - calls fresh_world)%nat in
  (1 <= n)%nat /\ op env_recovers (n - 1) = Ok 42%nat /\
  forall j, (j < n - 1)%nat ->
    exists e, op env_recovers j = Err e /\ is_rate_limit_error e = true.
Proof.
  apply (call_with_retry_returned_inv limiter3 env_recovers fresh_world
           (snd (call_with_retry limiter3 env_recovers fresh_world)) 42%nat).
  vm_compute. reflexivity.
Defined.

Lemma call_with_retry_raised_inv_witness :
  let w' := snd (call_with_retry limiter3 env_fatal_at_2 fresh_world) in
  let n := (calls w' - calls fresh_world)%nat in
  (1 <= n)%nat /\ op env_fatal_at_2 (n - 1) = Err (mkExc 2 "Invalid API key") /\
  (forall j, (j < n - 1)%nat ->
     exists e', op env_fatal_at_2 j = Err e' /\ is_rate_limit_error e' = true) /\
  (is_rate_limit_error (mkExc 2 "Invalid API key") = false \/
   Z.of_nat n = (max_retries limiter3 + 1)%Z).
Proof.
  apply (call_with_retry_raised_inv limiter3 env_fatal_at_2 fresh_world
           (snd (call_with_retry limiter3 env_fatal_at_2 fresh_world))
           (mkExc 2 "Invalid API key")).
  vm_compute. reflexivity.
Defined.

Lemma call_with_retry_escaped_inv_witness :
  let w' := snd (call_with_retry limiter3 env_huge_hint fresh_world) in
  let n := (calls w' - calls fresh_world)%nat in
  (1 <= n)%nat /\ (Z.of_nat n <= max_retries limiter3)%Z /\
  exists e, op env_huge_hint (n - 1) = Err e /\ is_rate_limit_error e = true /\
    (forall j, (j < n - 1)%nat ->
       exists e', op env_huge_hint j = Err e' /\ is_rate_limit_error e' = true) /\
    clock w' = last_request_time w' + dur env_huge_hint (n - 1).
Proof.
  apply (call_with_retry_escaped_inv limiter3 env_huge_hint fresh_world
           (snd (call_with_retry limiter3 env_huge_hint fresh_world)) OverflowError).
  vm_compute. reflexivity.
Defined.

Lemma call_with_retry_fatal_at_witness :
  fst (call_with_retry limiter3 env_fatal_at_2 fresh_world) = Raised (mkExc 2 "Invalid API key") /\
  calls (snd (call_with_retry limiter3 env_fatal_at_2 fresh_world)) =
    (calls fresh_world + 2 + 1)%nat.
Proof.
  apply (call_with_retry_fatal_at limiter3 env_fatal_at_2 fresh_world 2
           (mkExc 2 "Invalid API key")).
  - vm_compute. discriminate.
  - intros j Hj. exists (mkExc j "429 Too Many Requests"). split; [|reflexivity].
    cbn [op env_fatal_at_2]. rewrite (proj2 (Nat.ltb_lt j 2) Hj). reflexivity.
  - reflexivity.
  - vm_compute. reflexivity.
  - solve_backoff_safe.
Defined.

Lemma call_with_retry_elapsed_witness :
  let w' := snd (call_with_retry limiter3 env_recovers fresh_world) in
  let k := inject_Z (Z.of_nat (calls w' - calls fresh_world)) in
  clock fresh_world + (k - 1) * (1 # 10) <= clock w' /\
  clock w' <= clock fresh_world + k * (min_interval + (1 # 2)) +
              (k - 1) * Qmax (max_delay limiter3) (1 # 10).
Proof.
  apply (call_with_retry_elapsed limiter3 env_recovers fresh_world (1 # 2)).
  - intros i. cbn [dur env_recovers]. lra.
  - unfold fresh_world. cbn [clock last_request_time]. lra.
  - vm_compute. discriminate.
Defined.

Lemma set_global_rate_limits_fresh_witness :
  let g' := set_global_rate_limits (import_globals 100) 2 1 60 in
  let w' := snd (call_with_retry (get_rate_limiter g') env_recovers (default_state g')) in
  get_rate_limiter g' = mkRateLimiter 2 1 60 /\
  request_count w' = Z.of_nat (calls w' - calls (default_state (import_globals 100))) /\
  exists l t, starts w' = (l ++ [t])%list /\
              t == Qmax (clock (default_state (import_globals 100))) min_interval.
Proof.
  apply (set_global_rate_limits_fresh (import_globals 100) 2 1 60 env_recovers).
  lia.
Defined.
